(** * BerlWebSocketClient: the session engine of [src_py/websocket_client.py]

    A shallow embedding of the Python client and of the two [json] entry
    points it calls, followed by the properties of the specification that
    concern them.

    Layout:
    - [PyText]: Python [str] values as sequences of code points, with the
      text-level helpers of the [json] module;
    - [Section Runtime]: Python values, [json.dumps] and [json.loads] with
      their default options, the effect monad, the methods of
      [BerlWebSocketClient], and then the lemmas and theorems about them;
    - the properties at concrete inputs.

    What is outside the embedding: binary floating point (a [float] is
    opaque), [repr] of values other than strings, the interleaving of
    tasks at [await] points and their cancellation, binary frames, and the
    resource limits of the interpreter. *)

From Stdlib Require Import NArith ZArith List String Ascii Bool Lia.
From Stdlib Require Import DecimalFacts DecimalPos DecimalN DecimalZ.
Import ListNotations.

Set Implicit Arguments.

(** ** Python text *)

Module PyText.

Local Open Scope N_scope.

(** A Python [str] is a sequence of Unicode code points. *)
Definition pystr := list N.

(** A source-code literal: every character of the literals of the client is
    ASCII, so its code point is its byte. *)
Definition py (s : string) : pystr := map N_of_ascii (list_ascii_of_string s).

(** A literal holding JSON text, written with single quotes where the text
    has double quotes. *)
Definition pyq (s : string) : pystr :=
  map (fun c => if c =? 39 then 34 else c) (py s).

Fixpoint pystr_eqb (a b : pystr) : bool :=
  match a, b with
  | [], [] => true
  | x :: a', y :: b' => (x =? y) && pystr_eqb a' b'
  | _, _ => false
  end.

(** [s.startswith(p)], returning what follows the prefix. *)
Fixpoint strip_prefix (p s : pystr) : option pystr :=
  match p, s with
  | [], _ => Some s
  | x :: p', y :: s' => if x =? y then strip_prefix p' s' else None
  | _ :: _, [] => None
  end.

(** Code points that are not surrogates: the characters of Unicode text. *)
Definition is_scalar (c : N) : bool :=
  (c <? 0xd800) || ((0xdfff <? c) && (c <=? 0x10ffff)).

(** *** Helpers of [json.encoder] *)

Definition hexdigit (d : N) : N := if d <? 10 then 48 + d else 87 + d.

(** ['{0:04x}'.format(n)] for [n < 0x10000]. *)
Definition hex4 (n : N) : pystr :=
  [hexdigit (n / 4096 mod 16); hexdigit (n / 256 mod 16);
   hexdigit (n / 16 mod 16); hexdigit (n mod 16)].

(** The replacement [py_encode_basestring_ascii] makes for one character:
    [ESCAPE_DCT] for the quote, the backslash and the control characters,
    the character itself between the space and the tilde, a [\uXXXX] escape
    for the rest, as a surrogate pair above the basic plane. *)
Definition escape_char (c : N) : pystr :=
  if c =? 34 then [92; 34]
  else if c =? 92 then [92; 92]
  else if c =? 10 then [92; 110]
  else if c =? 13 then [92; 114]
  else if c =? 9 then [92; 116]
  else if c =? 8 then [92; 98]
  else if c =? 12 then [92; 102]
  else if (32 <=? c) && (c <=? 126) then [c]
  else if c <? 0x10000 then 92 :: 117 :: hex4 c
  else
    let n := c - 0x10000 in
    let s1 := N.lor 0xd800 (N.land (N.shiftr n 10) 0x3ff) in
    let s2 := N.lor 0xdc00 (N.land n 0x3ff) in
    92 :: 117 :: hex4 s1 ++ 92 :: 117 :: hex4 s2.

Definition encode_basestring_ascii (s : pystr) : pystr :=
  34 :: flat_map escape_char s ++ [34].

(** The items of a container, with [item_separator] between them. *)
Fixpoint join_items (items : list pystr) : pystr :=
  match items with
  | [] => []
  | x :: xs =>
      match xs with
      | [] => x
      | _ :: _ => x ++ py ", " ++ join_items xs
      end
  end.

Fixpoint uint_str (u : Decimal.uint) : pystr :=
  match u with
  | Decimal.Nil => []
  | Decimal.D0 u' => 48 :: uint_str u'
  | Decimal.D1 u' => 49 :: uint_str u'
  | Decimal.D2 u' => 50 :: uint_str u'
  | Decimal.D3 u' => 51 :: uint_str u'
  | Decimal.D4 u' => 52 :: uint_str u'
  | Decimal.D5 u' => 53 :: uint_str u'
  | Decimal.D6 u' => 54 :: uint_str u'
  | Decimal.D7 u' => 55 :: uint_str u'
  | Decimal.D8 u' => 56 :: uint_str u'
  | Decimal.D9 u' => 57 :: uint_str u'
  end.

(** [int.__repr__]: the decimal digits, with a minus sign below zero. *)
Definition int_repr (z : Z) : pystr :=
  match Z.to_int z with
  | Decimal.Pos u => uint_str u
  | Decimal.Neg u => 45 :: uint_str u
  end.

(** *** Helpers of [json.decoder] and [json.scanner] *)

(** [WHITESPACE]: any run of space, tab, line feed and carriage return. *)
Definition is_ws (c : N) : bool :=
  (c =? 32) || (c =? 9) || (c =? 10) || (c =? 13).

Fixpoint skip_ws (s : pystr) : pystr :=
  match s with
  | c :: r => if is_ws c then skip_ws r else s
  | [] => []
  end.

Definition is_digit (c : N) : bool := (48 <=? c) && (c <=? 57).

(** The longest prefix made of decimal digits, and the rest. *)
Fixpoint span_digits (s : pystr) : pystr * pystr :=
  match s with
  | c :: r =>
      if is_digit c then let '(ds, r') := span_digits r in (c :: ds, r')
      else ([], s)
  | [] => ([], [])
  end.

Definition hexval (c : N) : option N :=
  if (48 <=? c) && (c <=? 57) then Some (c - 48)
  else if (97 <=? c) && (c <=? 102) then Some (c - 87)
  else if (65 <=? c) && (c <=? 70) then Some (c - 55)
  else None.

(** [_decode_uXXXX], on the text that follows the [u]: four hexadecimal
    digits, or a decoding error. *)
Definition decode_uXXXX (s : pystr) : option (N * pystr) :=
  match s with
  | a :: b :: c :: d :: r =>
      match hexval a, hexval b, hexval c, hexval d with
      | Some a', Some b', Some c', Some d' =>
          Some (((a' * 16 + b') * 16 + c') * 16 + d', r)
      | _, _, _, _ => None
      end
  | _ => None
  end.

(** [BACKSLASH]: the one-character escapes. *)
Definition backslash (esc : N) : option N :=
  if esc =? 34 then Some 34
  else if esc =? 92 then Some 92
  else if esc =? 47 then Some 47
  else if esc =? 98 then Some 8
  else if esc =? 102 then Some 12
  else if esc =? 110 then Some 10
  else if esc =? 114 then Some 13
  else if esc =? 116 then Some 9
  else None.

Definition cons_char (c : N) (r : option (pystr * pystr)) : option (pystr * pystr) :=
  match r with
  | Some (str, rest) => Some (c :: str, rest)
  | None => None
  end.

(** [scanstring(s, end, strict=True)], on the text that follows the opening
    quote: the decoded string and the text after the closing quote.  [None]
    is [JSONDecodeError] (unterminated string, control character, invalid
    escape).  Every step consumes a character, so [length s] steps are
    enough. *)
Fixpoint scanstring_loop (n : nat) (s : pystr) : option (pystr * pystr) :=
  match n with
  | O => None
  | S n' =>
      match s with
      | [] => None
      | c :: r =>
          if c =? 34 then Some ([], r)
          else if c =? 92 then
            match r with
            | [] => None
            | esc :: r1 =>
                if esc =? 117 then
                  match decode_uXXXX r1 with
                  | None => None
                  | Some (uni, r2) =>
                      if (0xd800 <=? uni) && (uni <=? 0xdbff) then
                        match strip_prefix [92; 117] r2 with
                        | Some r3 =>
                            match decode_uXXXX r3 with
                            | None => None
                            | Some (uni2, r4) =>
                                if (0xdc00 <=? uni2) && (uni2 <=? 0xdfff) then
                                  cons_char
                                    (0x10000 + N.lor (N.shiftl (uni - 0xd800) 10)
                                                     (uni2 - 0xdc00))
                                    (scanstring_loop n' r4)
                                else cons_char uni (scanstring_loop n' r2)
                            end
                        | None => cons_char uni (scanstring_loop n' r2)
                        end
                      else cons_char uni (scanstring_loop n' r2)
                  end
                else
                  match backslash esc with
                  | Some ch => cons_char ch (scanstring_loop n' r1)
                  | None => None
                  end
            end
          else if c <? 32 then None
          else cons_char c (scanstring_loop n' r)
      end
  end.

Definition scanstring (s : pystr) : option (pystr * pystr) :=
  scanstring_loop (List.length s) s.

(** [NUMBER_RE], one group at a time: an optional minus sign followed by a
    single zero or by a nonzero digit and any digits; optionally a dot and
    one digit or more; optionally [e] or [E], an optional sign and one digit
    or more.  Each function returns the matched text and the rest. *)
Definition match_integer (s : pystr) : option (pystr * pystr) :=
  let '(sign, s1) :=
    match s with
    | c :: r => if c =? 45 then ([45], r) else ([], s)
    | [] => ([], s)
    end in
  match s1 with
  | c :: r =>
      if c =? 48 then Some (sign ++ [48], r)
      else if is_digit c then
        let '(ds, r') := span_digits r in Some (sign ++ c :: ds, r')
      else None
  | [] => None
  end.

Definition match_frac (s : pystr) : option (pystr * pystr) :=
  match s with
  | c :: r =>
      if c =? 46 then
        match span_digits r with
        | ([], _) => None
        | (ds, r') => Some (c :: ds, r')
        end
      else None
  | [] => None
  end.

Definition match_exp (s : pystr) : option (pystr * pystr) :=
  match s with
  | c :: r =>
      if (c =? 101) || (c =? 69) then
        let '(sign, r1) :=
          match r with
          | c2 :: r2 => if (c2 =? 45) || (c2 =? 43) then ([c2], r2) else ([], r)
          | [] => ([], r)
          end in
        match span_digits r1 with
        | ([], _) => None
        | (ds, r') => Some (c :: sign ++ ds, r')
        end
      else None
  | [] => None
  end.

Definition digit_of (c : N) (u : Decimal.uint) : Decimal.uint :=
  if c =? 48 then Decimal.D0 u
  else if c =? 49 then Decimal.D1 u
  else if c =? 50 then Decimal.D2 u
  else if c =? 51 then Decimal.D3 u
  else if c =? 52 then Decimal.D4 u
  else if c =? 53 then Decimal.D5 u
  else if c =? 54 then Decimal.D6 u
  else if c =? 55 then Decimal.D7 u
  else if c =? 56 then Decimal.D8 u
  else Decimal.D9 u.

Fixpoint uint_of_digits (s : pystr) : Decimal.uint :=
  match s with
  | [] => Decimal.Nil
  | c :: r => digit_of c (uint_of_digits r)
  end.

(** [int(text)] on the text of the first group of [NUMBER_RE]. *)
Definition parse_int (text : pystr) : Z :=
  match text with
  | c :: ds =>
      if c =? 45 then Z.of_int (Decimal.Neg (uint_of_digits ds))
      else Z.of_int (Decimal.Pos (uint_of_digits text))
  | [] => 0%Z
  end.

End PyText.

Import PyText.

(** ** Python values, the codec and the client *)

Notation "' pat <- c ;; k" :=
  (match c with Some pat => k | None => None end)
  (at level 61, pat pattern, c at next level, right associativity,
   format "' pat  <-  c  ;;  '//' k").

Section Runtime.

Local Open Scope N_scope.

(** Binary floating point is not interpreted: a [float] is a value of an
    abstract type, made from the text of a literal by Python's [float] and
    printed by [float.__repr__] (through [floatstr] of [json.encoder], which
    also names the three non-finite values). *)
Variable float : Type.
Variable float_of_literal : pystr -> float.
Variable floatstr : float -> pystr.

(** The values [json.loads] produces and [json.dumps] accepts.  A [dict]
    keeps its insertion order, which [json.dumps] follows; its keys are
    strings and, in a well-formed value, distinct. *)
Unset Elimination Schemes.
Inductive pyval : Type :=
| PNone
| PBool (b : bool)
| PInt (z : Z)
| PFloat (f : float)
| PStr (s : pystr)
| PList (l : list pyval)
| PDict (d : list (pystr * pyval)).
Set Elimination Schemes.

(** [repr] of a value that is not a [str] (quoting and float formatting are
    not interpreted). *)
Variable py_repr : pyval -> pystr.

(** [str(v)], which is also what an f-string field [{v}] expands to. *)
Definition py_str (v : pyval) : pystr :=
  match v with
  | PStr s => s
  | _ => py_repr v
  end.

(** *** dict operations *)

Fixpoint dict_lookup (d : list (pystr * pyval)) (k : pystr) : option pyval :=
  match d with
  | [] => None
  | (k', v) :: d' => if pystr_eqb k' k then Some v else dict_lookup d' k
  end.

(** [d.get(k)]: the value, or [None] for a missing key. *)
Definition dict_get (d : list (pystr * pyval)) (k : pystr) : pyval :=
  match dict_lookup d k with
  | Some v => v
  | None => PNone
  end.

(** [d[k] = v]: an existing key keeps its place, a new one goes last. *)
Fixpoint dict_set (d : list (pystr * pyval)) (k : pystr) (v : pyval)
  : list (pystr * pyval) :=
  match d with
  | [] => [(k, v)]
  | (k', v') :: d' =>
      if pystr_eqb k' k then (k', v) :: d' else (k', v') :: dict_set d' k v
  end.

(** [dict(pairs)]. *)
Definition dict_of_pairs (pairs : list (pystr * pyval)) : list (pystr * pyval) :=
  fold_left (fun d kv => dict_set d (fst kv) (snd kv)) pairs [].

(** [v == 'literal']: only a [str] equals a [str]. *)
Definition eq_str (v : pyval) (lit : pystr) : bool :=
  match v with
  | PStr s => pystr_eqb s lit
  | _ => false
  end.

(** *** [json.dumps(obj)] with the default options

    [ensure_ascii=True], separators [', '] and [': '], no indentation, keys
    in insertion order. *)
Fixpoint json_dumps (v : pyval) : pystr :=
  match v with
  | PNone => py "null"
  | PBool true => py "true"
  | PBool false => py "false"
  | PInt z => int_repr z
  | PFloat f => floatstr f
  | PStr s => encode_basestring_ascii s
  | PList l => 91 :: join_items (map json_dumps l) ++ [93]
  | PDict d =>
      123 :: join_items
               (map (fun kv =>
                       encode_basestring_ascii (fst kv) ++ py ": "
                         ++ json_dumps (snd kv)) d) ++ [125]
  end.

(** *** [json.loads(s)] with the default options

    [None] stands for [json.JSONDecodeError], the only failure modelled:
    the interpreter's resource limits (recursion depth, digits of an
    integer) are not. *)

Section Containers.

(** [JSONArray] and [JSONObject] receive the scanner as an argument, as in
    [json.decoder]. *)
Variable scan_once : pystr -> option (pyval * pystr).

(** The loop of [JSONArray], from the first character of a value. *)
Fixpoint array_items (n : nat) (s : pystr) : option (list pyval * pystr) :=
  match n with
  | O => None
  | S n' =>
      '(value, r) <- scan_once s ;;
      match skip_ws r with
      | c :: r' =>
          if c =? 93 then Some ([value], r')
          else if c =? 44 then
            '(values, r'') <- array_items n' (skip_ws r') ;;
            Some (value :: values, r'')
          else None
      | [] => None
      end
  end.

Definition JSONArray (n : nat) (s : pystr) : option (pyval * pystr) :=
  match skip_ws s with
  | c :: r =>
      if c =? 93 then Some (PList [], r)
      else
        '(values, r') <- array_items n (c :: r) ;;
        Some (PList values, r')
  | [] => None
  end.

(** The loop of [JSONObject], from the opening quote of a key. *)
Fixpoint object_items (n : nat) (s : pystr)
  : option (list (pystr * pyval) * pystr) :=
  match n with
  | O => None
  | S n' =>
      match s with
      | c :: r =>
          if c =? 34 then
            '(key, r1) <- scanstring r ;;
            match skip_ws r1 with
            | c1 :: r2 =>
                if c1 =? 58 then
                  '(value, r3) <- scan_once (skip_ws r2) ;;
                  match skip_ws r3 with
                  | c3 :: r4 =>
                      if c3 =? 125 then Some ([(key, value)], r4)
                      else if c3 =? 44 then
                        '(pairs, r5) <- object_items n' (skip_ws r4) ;;
                        Some ((key, value) :: pairs, r5)
                      else None
                  | [] => None
                  end
                else None
            | [] => None
            end
          else None
      | [] => None
      end
  end.

Definition JSONObject (n : nat) (s : pystr) : option (pyval * pystr) :=
  match skip_ws s with
  | c :: r =>
      if c =? 125 then Some (PDict [], r)
      else
        '(pairs, r') <- object_items n (c :: r) ;;
        Some (PDict (dict_of_pairs pairs), r')
  | [] => None
  end.

End Containers.

(** The number branch of [_scan_once]: [int] of the first group when it
    stands alone, [float] of the whole match otherwise. *)
Definition scan_number (s : pystr) : option (pyval * pystr) :=
  '(integer, r1) <- match_integer s ;;
  match match_frac r1 with
  | Some (frac, r2) =>
      match match_exp r2 with
      | Some (exp, r3) =>
          Some (PFloat (float_of_literal (integer ++ frac ++ exp)), r3)
      | None => Some (PFloat (float_of_literal (integer ++ frac)), r2)
      end
  | None =>
      match match_exp r1 with
      | Some (exp, r3) => Some (PFloat (float_of_literal (integer ++ exp)), r3)
      | None => Some (PInt (parse_int integer), r1)
      end
  end.

Definition scan_constant (lit : pystr) (v : pyval) (s : pystr)
  : option (pyval * pystr) :=
  ' r <- strip_prefix lit s ;; Some (v, r).

Definition or_else {A : Type} (a b : option A) : option A :=
  match a with
  | Some _ => a
  | None => b
  end.

(** [_scan_once(string, idx)]: one JSON value at the head of [s], and what
    follows it.  The fuel bounds the nesting depth and the number of items
    of a container; [json_loads] starts with more than the length of the
    text, which no nesting and no item count can reach (the lemmas on fuel
    below prove it). *)
Fixpoint scan_once (fuel : nat) (s : pystr) : option (pyval * pystr) :=
  match fuel with
  | O => None
  | S fuel' =>
      match s with
      | [] => None
      | c :: r =>
          if c =? 34 then
            '(str, r') <- scanstring r ;; Some (PStr str, r')
          else if c =? 123 then JSONObject (scan_once fuel') fuel' r
          else if c =? 91 then JSONArray (scan_once fuel') fuel' r
          else
            or_else (scan_constant (py "null") PNone s)
           (or_else (scan_constant (py "true") (PBool true) s)
           (or_else (scan_constant (py "false") (PBool false) s)
           (or_else (scan_number s)
           (or_else (scan_constant (py "NaN")
                       (PFloat (float_of_literal (py "nan"))) s)
           (or_else (scan_constant (py "Infinity")
                       (PFloat (float_of_literal (py "inf"))) s)
                    (scan_constant (py "-Infinity")
                       (PFloat (float_of_literal (py "-inf"))) s))))))
      end
  end.

(** [JSONDecoder.decode]: leading whitespace, one value, trailing
    whitespace, and nothing else. *)
Definition json_loads (s : pystr) : option pyval :=
  '(obj, r) <- scan_once (S (List.length s)) (skip_ws s) ;;
  match skip_ws r with
  | [] => Some obj
  | _ :: _ => None
  end.

(** *** Messages in the structured form

    The values JSON text can express: no float (binary floating point is
    outside the embedding), strings made of Unicode characters (no
    surrogate code points), and, as in any [dict], distinct keys. *)
Fixpoint distinct (keys : list pystr) : bool :=
  match keys with
  | [] => true
  | k :: ks => negb (existsb (pystr_eqb k) ks) && distinct ks
  end.

Fixpoint json_wf (v : pyval) : bool :=
  match v with
  | PNone | PBool _ | PInt _ => true
  | PFloat _ => false
  | PStr s => forallb is_scalar s
  | PList l => forallb json_wf l
  | PDict d =>
      distinct (map fst d)
      && forallb (fun kv => forallb is_scalar (fst kv) && json_wf (snd kv)) d
  end.

(** The number of nodes of a value: what the scanner needs as fuel. *)
Fixpoint json_size (v : pyval) : nat :=
  match v with
  | PList l => S (list_sum (map json_size l))
  | PDict d => S (list_sum (map (fun kv => json_size (snd kv)) d))
  | _ => 1
  end.

(** What may follow a value inside JSON text: nothing, a comma, or the end
    of the enclosing container. *)
Definition delimited (rest : pystr) : bool :=
  match rest with
  | [] => true
  | c :: _ => (c =? 44) || (c =? 93) || (c =? 125)
  end.

(** A text that does not go on with a digit. *)
Definition no_digit_ahead (rest : pystr) : Prop :=
  match rest with
  | [] => True
  | c :: _ => is_digit c = false
  end.

(** A character a value can start with: not whitespace, and neither of
    the closing brackets. *)
Definition value_start (c : N) : Prop :=
  is_ws c = false /\ (c =? 93) = false /\ (c =? 125) = false.

(** The text of one item of a dict. *)
Definition dict_item (kv : pystr * pyval) : pystr :=
  encode_basestring_ascii (fst kv) ++ py ": " ++ json_dumps (snd kv).

(** What the scanner is asked to do on an item: read it back, whatever
    delimiter follows. *)
Definition reads_back (scan : pystr -> option (pyval * pystr)) (x : pyval) : Prop :=
  json_wf x = true /\
  forall rest, delimited rest = true -> scan (json_dumps x ++ rest) = Some (x, rest).

Definition item_reads_back (scan : pystr -> option (pyval * pystr))
    (kv : pystr * pyval) : Prop :=
  forallb is_scalar (fst kv) = true /\ reads_back scan (snd kv).

(** Three relations between scanners, for the lemmas on fuel: a scanner
    that never returns more text than it was given; one scanner accepting
    what another accepts; two scanners agreeing on short texts. *)
Definition shrinks (scan : pystr -> option (pyval * pystr)) : Prop :=
  forall s v r, scan s = Some (v, r) -> (List.length r <= List.length s)%nat.

Definition extends (scan scan' : pystr -> option (pyval * pystr)) : Prop :=
  forall s x, scan s = Some x -> scan' s = Some x.

Definition agree_upto (m : nat) (scan scan' : pystr -> option (pyval * pystr))
  : Prop :=
  forall s, (List.length s <= m)%nat -> scan s = scan' s.

(** *** Exceptions, the transport and the world

    A coroutine is run to completion in one go: the tasks that could be
    scheduled at its [await] points, and their cancellation, are not part
    of the embedding. *)

(** The subclasses of [Exception] that the [except] clauses of the client
    tell apart. *)
Inductive exn : Type :=
| ConnectionClosed
| JSONDecodeError
| OtherException (tag : nat).

Inductive result (A : Type) : Type :=
| Ret (a : A)
| Raise (e : exn).
Arguments Ret {A} a.
Arguments Raise {A} e.

Inductive level : Type := INFO | ERROR.

(** The records passed to [logger], one constructor per call site. *)
Inductive log_msg : Type :=
| Connecting (host : pystr) (port : Z)
| Connected
| FailedToConnect (e : exn)
| Disconnected
| NotConnected
| Sent (message : pyval)
| FailedToSend (e : exn)
| Received (message : pystr)
| ClosedByServer
| ErrorListening (e : exn)
| Processing (message : pyval).

(** What [await websocket.recv()] gives: a text frame or an exception. *)
Inductive recv_outcome : Type :=
| RecvText (message : pystr)
| RecvRaise (e : exn).

(** The calls that leave the client, in order. *)
Inductive event : Type :=
| Log (l : level) (m : log_msg)
| TransportOpen (host : pystr) (port : Z) (outcome : option exn)
| TransportSend (frame : pystr) (outcome : option exn)
| TransportRecv (outcome : recv_outcome)
| TransportClose.

(** The fields of a [BerlWebSocketClient].  [websocket] is [None] or a
    reference to a connection object, named by a number. *)
Record client : Type := mkClient {
  host : pystr;
  port : Z;
  websocket : option nat;
  running : bool
}.

(** The connection object behind [websocket]: whether it is closed, and the
    frames written to it. *)
Record connection : Type := mkConnection {
  closed : bool;
  delivered : list pystr
}.

(** The client, the connection its [websocket] field refers to, the number
    of connections opened so far, the faults the network holds for the next
    writes ([None] for a write that goes through), and the calls made. *)
Record world : Type := mkWorld {
  self : client;
  conn : connection;
  opened : nat;
  faults : list (option exn);
  trace : list event
}.

Definition M (A : Type) : Type := world -> result A * world.

Definition ret {A : Type} (a : A) : M A := fun w => (Ret a, w).

Definition raise {A : Type} (e : exn) : M A := fun w => (Raise e, w).

Definition bind {A B : Type} (m : M A) (k : A -> M B) : M B :=
  fun w =>
    match m w with
    | (Ret a, w') => k a w'
    | (Raise e, w') => (Raise e, w')
    end.

(** [try: body  except ... as e: handler e]; a handler re-raises what its
    clauses do not match. *)
Definition try_except {A : Type} (body : M A) (handler : exn -> M A) : M A :=
  fun w =>
    match body w with
    | (Ret a, w') => (Ret a, w')
    | (Raise e, w') => handler e w'
    end.

Notation "x <- m ;; k" := (bind m (fun x => k))
  (at level 61, m at next level, right associativity).
Notation "m ;; k" := (bind m (fun _ => k))
  (at level 61, right associativity).

Definition get_self : M client := fun w => (Ret (self w), w).

Definition emit (e : event) : M unit :=
  fun w => (Ret tt, mkWorld (self w) (conn w) (opened w) (faults w) (trace w ++ [e])).

Definition logger (l : level) (m : log_msg) : M unit := emit (Log l m).

Definition set_websocket (ws : option nat) : M unit :=
  fun w =>
    let c := self w in
    (Ret tt, mkWorld (mkClient (host c) (port c) ws (running c))
                     (conn w) (opened w) (faults w) (trace w)).

Definition set_running (b : bool) : M unit :=
  fun w =>
    let c := self w in
    (Ret tt, mkWorld (mkClient (host c) (port c) (websocket c) b)
                     (conn w) (opened w) (faults w) (trace w)).

(** [websockets.connect(uri)]: a fresh, open connection object, or the
    exception the handshake ends in. *)
Definition websockets_connect (uri_host : pystr) (uri_port : Z)
    (outcome : option exn) : M nat :=
  emit (TransportOpen uri_host uri_port outcome) ;;
  match outcome with
  | Some e => raise e
  | None =>
      fun w =>
        (Ret (opened w),
         mkWorld (self w) (mkConnection false []) (S (opened w))
                 (faults w) (trace w))
  end.

(** What the next [websocket.send] will do: [ConnectionClosed] on a closed
    connection, else the fault the network holds, if any. *)
Definition write_outcome (w : world) : option exn :=
  if closed (conn w) then Some ConnectionClosed
  else match faults w with
       | Some e :: _ => Some e
       | _ => None
       end.

(** [websocket.send(frame)]. *)
Definition websocket_send (frame : pystr) : M unit :=
  fun w =>
    let w1 := mkWorld (self w) (conn w) (opened w) (faults w)
                      (trace w ++ [TransportSend frame (write_outcome w)]) in
    if closed (conn w) then (Raise ConnectionClosed, w1)
    else
      match faults w with
      | Some e :: rest =>
          (Raise e, mkWorld (self w1) (conn w1) (opened w1) rest (trace w1))
      | o =>
          (Ret tt,
           mkWorld (self w1)
                   (mkConnection (closed (conn w)) (delivered (conn w) ++ [frame]))
                   (opened w1) (tl o) (trace w1))
      end.

(** [websocket.recv()], with the outcome the peer decides.  A connection
    that reports [ConnectionClosed] is closed. *)
Definition websocket_recv (outcome : recv_outcome) : M pystr :=
  emit (TransportRecv outcome) ;;
  match outcome with
  | RecvText message => ret message
  | RecvRaise ConnectionClosed =>
      fun w =>
        (Raise ConnectionClosed,
         mkWorld (self w) (mkConnection true (delivered (conn w)))
                 (opened w) (faults w) (trace w))
  | RecvRaise e => raise e
  end.

(** [websocket.close()]: closes the connection; on a closed one it does
    nothing more. *)
Definition websocket_close : M unit :=
  emit TransportClose ;;
  fun w =>
    (Ret tt,
     mkWorld (self w) (mkConnection true (delivered (conn w)))
             (opened w) (faults w) (trace w)).

(** *** The methods of [BerlWebSocketClient] *)

(** [__init__(host, port)], and the world of a client just made. *)
Definition init (h : pystr) (p : Z) : client := mkClient h p None false.

Definition new_world (h : pystr) (p : Z) (network : list (option exn)) : world :=
  mkWorld (init h p) (mkConnection true []) 0 network [].

Definition connect (outcome : option exn) : M pyval :=
  c <- get_self ;;
  logger INFO (Connecting (host c) (port c)) ;;
  try_except
    (ws <- websockets_connect (host c) (port c) outcome ;;
     set_websocket (Some ws) ;;
     set_running true ;;
     logger INFO Connected ;;
     ret (PBool true))
    (fun e =>
       logger ERROR (FailedToConnect e) ;;
       ret (PBool false)).

Definition disconnect : M pyval :=
  c <- get_self ;;
  match websocket c with
  | Some _ =>
      set_running false ;;
      websocket_close ;;
      logger INFO Disconnected ;;
      ret PNone
  | None => ret PNone
  end.

(** The text [send_message] writes: [json.dumps] of a [dict], [str] of
    anything else. *)
Definition message_str (message : pyval) : pystr :=
  match message with
  | PDict _ => json_dumps message
  | _ => py_str message
  end.

Definition send_message (message : pyval) : M pyval :=
  c <- get_self ;;
  match websocket c with
  | None =>
      logger ERROR NotConnected ;;
      ret PNone
  | Some _ =>
      try_except
        (websocket_send (message_str message) ;;
         logger INFO (Sent message) ;;
         ret PNone)
        (fun e =>
           logger ERROR (FailedToSend e) ;;
           ret PNone)
  end.

Definition handle_message (message : pyval) : M pyval :=
  logger INFO (Processing message) ;;
  match message with
  | PDict d =>
      if eq_str (dict_get d (py "type")) (py "ping") then
        send_message
          (PDict [(py "type", PStr (py "pong"));
                  (py "timestamp", dict_get d (py "timestamp"))]) ;;
        ret PNone
      else if eq_str (dict_get d (py "command")) (py "echo") then
        send_message
          (PDict [(py "type", PStr (py "echo_response"));
                  (py "original", dict_get d (py "data"));
                  (py "response",
                   PStr (py "Echo: " ++ py_str (dict_get d (py "data"))))]) ;;
        ret PNone
      else ret PNone
  | _ => ret PNone
  end.

(** The body of the [while] loop of [listen_for_messages], for the outcome
    of its [recv]. *)
Definition listen_iteration (outcome : recv_outcome) : M pyval :=
  message <- websocket_recv outcome ;;
  logger INFO (Received message) ;;
  try_except
    (data <- (match json_loads message with
              | Some data => ret data
              | None => raise JSONDecodeError
              end) ;;
     handle_message data)
    (fun e =>
       match e with
       | JSONDecodeError => handle_message (PStr message)
       | _ => raise e
       end).

(** The [while self.running and self.websocket] loop, fed with the outcomes
    of its successive reads.  [None] is a coroutine still waiting in [recv]
    when the outcomes run out. *)
Fixpoint listen_loop (incoming : list recv_outcome) (w : world)
  : option (result pyval) * world :=
  match running (self w), websocket (self w) with
  | true, Some _ =>
      match incoming with
      | [] => (None, w)
      | outcome :: rest =>
          match listen_iteration outcome w with
          | (Ret _, w') => listen_loop rest w'
          | (Raise e, w') => (Some (Raise e), w')
          end
      end
  | _, _ => (Some (Ret PNone), w)
  end.

Definition listen_for_messages (incoming : list recv_outcome) (w : world)
  : option (result pyval) * world :=
  match listen_loop incoming w with
  | (Some (Raise ConnectionClosed), w') =>
      (Some (Ret PNone), snd (logger INFO ClosedByServer w'))
  | (Some (Raise e), w') =>
      (Some (Ret PNone), snd (logger ERROR (ErrorListening e) w'))
  | r => r
  end.

(** *** Observations *)

(** The frames passed to [websocket.send], in order. *)
Fixpoint sent_frames (t : list event) : list pystr :=
  match t with
  | [] => []
  | TransportSend frame _ :: t' => frame :: sent_frames t'
  | _ :: t' => sent_frames t'
  end.

(** The log records, in order. *)
Fixpoint log_records (t : list event) : list (level * log_msg) :=
  match t with
  | [] => []
  | Log l m :: t' => (l, m) :: log_records t'
  | _ :: t' => log_records t'
  end.

(** The number of calls to [websocket.close]. *)
Fixpoint close_calls (t : list event) : nat :=
  match t with
  | [] => O
  | TransportClose :: t' => S (close_calls t')
  | _ :: t' => close_calls t'
  end.

(** What one call of [send_message] adds to the trace, and to the frames
    the connection has taken. *)
Definition send_events (message : pyval) (w : world) : list event :=
  match websocket (self w) with
  | None => [Log ERROR NotConnected]
  | Some _ =>
      match write_outcome w with
      | Some e => [TransportSend (message_str message) (Some e);
                   Log ERROR (FailedToSend e)]
      | None => [TransportSend (message_str message) None;
                 Log INFO (Sent message)]
      end
  end.

Definition send_delivery (message : pyval) (w : world) : list pystr :=
  match websocket (self w), write_outcome w with
  | Some _, None => [message_str message]
  | _, _ => []
  end.

(** The replies of [handle_message]. *)
Definition pong_reply (d : list (pystr * pyval)) : pyval :=
  PDict [(py "type", PStr (py "pong"));
         (py "timestamp", dict_get d (py "timestamp"))].

Definition echo_reply (d : list (pystr * pyval)) : pyval :=
  PDict [(py "type", PStr (py "echo_response"));
         (py "original", dict_get d (py "data"));
         (py "response", PStr (py "Echo: " ++ py_str (dict_get d (py "data"))))].

(** A client connected to [localhost:19765] over a network without faults,
    as [connect] leaves it. *)
Definition connected_world : world :=
  snd (connect None (new_world (py "localhost") 19765%Z [])).

(** The same client over a network whose next write fails. *)
Definition faulty_world (e : exn) : world :=
  snd (connect None (new_world (py "localhost") 19765%Z [Some e])).

(** *** What a frame is to the receive loop *)

(** The message the loop dispatches for a text frame: the parsed value, or
    the text itself when [json.loads] rejects it. *)
Definition decode (text : pystr) : pyval :=
  match json_loads text with
  | Some data => data
  | None => PStr text
  end.

(** The reply [handle_message] has for a message, if it has one. *)
Definition reply_to (message : pyval) : option pyval :=
  match message with
  | PDict d =>
      if eq_str (dict_get d (py "type")) (py "ping") then Some (pong_reply d)
      else if eq_str (dict_get d (py "command")) (py "echo") then
        Some (echo_reply d)
      else None
  | _ => None
  end.

Definition reply_frames (message : pyval) : list pystr :=
  match reply_to message with
  | Some reply => [json_dumps reply]
  | None => []
  end.

(** The frames the loop writes for a run of text frames, on a client that
    holds a connection. *)
Definition replies (texts : list pystr) : list pystr :=
  flat_map (fun text => reply_frames (decode text)) texts.

(** The world once a text frame is read and logged. *)
Definition received (text : pystr) (w : world) : world :=
  snd (logger INFO (Received text)
         (snd (emit (TransportRecv (RecvText text)) w))).

(** The reads made, in order. *)
Fixpoint reads (t : list event) : list recv_outcome :=
  match t with
  | [] => []
  | TransportRecv outcome :: t' => outcome :: reads t'
  | _ :: t' => reads t'
  end.

(** The characters from the space to the tilde. *)
Definition printable (c : N) : bool := (32 <=? c) && (c <=? 126).

(** *** The callers of the client

    [send_test_messages] and [interactive_mode] of the class, and
    [test_connection] of [test/test_python_client.py].  What they log,
    print, read and wait for goes to a console of its own, each record
    with the number of calls the client had made before it. *)

(** What [input("Enter message: ")] gives: a line, [KeyboardInterrupt], or
    another exception ([EOFError] on a closed input). *)
Inductive input_outcome : Type :=
| InputLine (line : pystr)
| InputInterrupt
| InputRaise (e : exn).

Inductive console_msg : Type :=
| SendingTest (i n : nat)
| Slept (seconds : Z)
| InteractiveStarted
| Prompted (outcome : input_outcome)
| InteractiveError (e : exn)
| PrintTesting
| PrintFailed
| PrintPassed.

Record session : Type := mkSession {
  client_world : world;
  console : list (nat * console_msg)
}.

Definition note (m : console_msg) (s : session) : session :=
  mkSession (client_world s)
            (console s ++ [(List.length (trace (client_world s)), m)]).

(** A method of the client, run from a caller. *)
Definition call {A : Type} (m : M A) (s : session) : result A * session :=
  match m (client_world s) with
  | (r, w') => (r, mkSession w' (console s))
  end.

(** The list of [send_test_messages]. *)
Definition test_messages : list pyval :=
  [PDict [(py "type", PStr (py "greeting"));
          (py "message", PStr (py "Hello from Python client!"))];
   PDict [(py "command", PStr (py "echo"));
          (py "data", PStr (py "Test echo message"))];
   PDict [(py "type", PStr (py "ping"));
          (py "timestamp", PStr (py "2025-01-01T00:00:00Z"))];
   PDict [(py "command", PStr (py "status"));
          (py "request_id", PStr (py "test_001"))];
   PDict [(py "type", PStr (py "json_test"));
          (py "data", PDict [(py "nested", PBool true);
                             (py "value", PInt 42)])]].

(** [for i, message in enumerate(messages)]: log, send, sleep one second. *)
Fixpoint send_enumerated (i n : nat) (messages : list pyval) (s : session)
  : result pyval * session :=
  match messages with
  | [] => (Ret PNone, s)
  | message :: rest =>
      match call (send_message message) (note (SendingTest (S i) n) s) with
      | (Ret _, s') => send_enumerated (S i) n rest (note (Slept 1) s')
      | (Raise e, s') => (Raise e, s')
      end
  end.

Definition send_test_messages (s : session) : result pyval * session :=
  send_enumerated 0 (List.length test_messages) test_messages s.

Section Interactive.

(** [str.lower], which the case tables of Unicode define. *)
Variable str_lower : pystr -> pystr.

(** [lowered in ['quit', 'exit', 'q']]. *)
Definition is_quit (lowered : pystr) : bool :=
  pystr_eqb lowered (py "quit") || pystr_eqb lowered (py "exit")
  || pystr_eqb lowered (py "q").

(** What [interactive_mode] sends for a line that is not JSON. *)
Definition text_message (user_input : pystr) : pyval :=
  PDict [(py "type", PStr (py "text")); (py "message", PStr user_input)].

(** The message a line stands for: what [json.loads] makes of it, or the
    text message when it is not JSON. *)
Definition line_message (user_input : pystr) : pyval :=
  match json_loads user_input with
  | Some parsed => parsed
  | None => text_message user_input
  end.

(** One pass of the body of the loop of [interactive_mode], for the
    outcome of its [input]: [true] to go round again, [false] for
    [break]. *)
Definition interactive_step (outcome : input_outcome) (s : session)
  : bool * session :=
  let s0 := note (Prompted outcome) s in
  match outcome with
  | InputInterrupt => (false, s0)
  | InputRaise e => (true, note (InteractiveError e) s0)
  | InputLine user_input =>
      if is_quit (str_lower user_input) then (false, s0)
      else
        match call (send_message (line_message user_input)) s0 with
        | (Ret _, s1) => (true, s1)
        | (Raise e, s1) => (true, note (InteractiveError e) s1)
        end
  end.

(** The [while self.running] loop, fed with the outcomes of its successive
    inputs; [None] is a loop still waiting for a line. *)
Fixpoint interactive_loop (inputs : list input_outcome) (s : session)
  : option (result pyval) * session :=
  if running (self (client_world s)) then
    match inputs with
    | [] => (None, s)
    | outcome :: rest =>
        match interactive_step outcome s with
        | (true, s') => interactive_loop rest s'
        | (false, s') => (Some (Ret PNone), s')
        end
    end
  else (Some (Ret PNone), s).

Definition interactive_mode (inputs : list input_outcome) (s : session)
  : option (result pyval) * session :=
  interactive_loop inputs (note InteractiveStarted s).

(** The outcomes of [input] that take the loop to [break], and the frame
    the loop asks the connection to write for the others. *)
Definition breaks_loop (outcome : input_outcome) : bool :=
  match outcome with
  | InputLine user_input => is_quit (str_lower user_input)
  | InputInterrupt => true
  | InputRaise _ => false
  end.

Definition line_frames (outcome : input_outcome) : list pystr :=
  match outcome with
  | InputLine user_input => [message_str (line_message user_input)]
  | _ => []
  end.

End Interactive.

(** [test_connection] of the test suite: a client with the default host
    and port, one [connect], and a [disconnect] when it succeeded.
    [connect] returns [True] or [False] and nothing else, so [not connected]
    is decided on these two. *)
Definition test_connection (network : list (option exn)) (outcome : option exn)
  : result pyval * session :=
  let s := note PrintTesting
             (mkSession (new_world (py "localhost") 19765%Z network) []) in
  match call (connect outcome) s with
  | (Ret connected, s1) =>
      match connected with
      | PBool true =>
          match call disconnect s1 with
          | (Ret _, s2) => (Ret (PBool true), note PrintPassed s2)
          | (Raise e, s2) => (Raise e, s2)
          end
      | _ => (Ret (PBool false), note PrintFailed s1)
      end
  | (Raise e, s1) => (Raise e, s1)
  end.

(** *** [test_ping] of [test/test_ping.py]

    The script talks to the server through [websockets] itself: one
    connection to [localhost:19765], held by [async with] and so closed on
    the way out; one ping written; one read, which [asyncio.wait_for]
    turns into [TimeoutError] after five seconds -- one more exception of
    the read.  Every [Exception] ends in [False]; so does a response that
    is JSON but not an object, which has no [get].  What the script prints
    is left out: the result and the calls on the transport are kept. *)
Definition ping_msg : pyval :=
  PDict [(py "type", PStr (py "ping"));
         (py "timestamp", PStr (py "2025-08-21T23:22:00Z"))].

Definition test_ping (handshake write : option exn) (response : recv_outcome)
  : bool * list event :=
  let asked := [TransportOpen (py "localhost") 19765%Z handshake] in
  match handshake with
  | Some _ => (false, asked)
  | None =>
      let sent := asked ++ [TransportSend (json_dumps ping_msg) write] in
      match write with
      | Some _ => (false, sent ++ [TransportClose])
      | None =>
          (match response with
           | RecvText text =>
               match json_loads text with
               | Some (PDict data) =>
                   eq_str (dict_get data (py "type")) (py "pong")
               | Some _ => false
               | None => false
               end
           | RecvRaise _ => false
           end,
           sent ++ [TransportRecv response; TransportClose])
      end
  end.

(** ** Properties *)

(** *** Traces *)

Lemma sent_frames_app (a b : list event) :
  sent_frames (a ++ b) = sent_frames a ++ sent_frames b.
Proof.
  induction a as [|e a IH]; simpl; [reflexivity|].
  destruct e; simpl; rewrite IH; reflexivity.
Qed.

Lemma log_records_app (a b : list event) :
  log_records (a ++ b) = log_records a ++ log_records b.
Proof.
  induction a as [|e a IH]; simpl; [reflexivity|].
  destruct e; simpl; rewrite IH; reflexivity.
Qed.

Lemma close_calls_app (a b : list event) :
  close_calls (a ++ b) = (close_calls a + close_calls b)%nat.
Proof.
  induction a as [|e a IH]; simpl; [reflexivity|].
  destruct e; simpl; rewrite IH; reflexivity.
Qed.

(** *** [send_message] *)

Lemma send_message_spec (message : pyval) (w : world) :
  let r := send_message message w in
  fst r = Ret PNone /\
  self (snd r) = self w /\
  closed (conn (snd r)) = closed (conn w) /\
  opened (snd r) = opened w /\
  trace (snd r) = trace w ++ send_events message w /\
  delivered (conn (snd r)) = delivered (conn w) ++ send_delivery message w.
Proof.
  unfold send_message, send_events, send_delivery, bind, get_self, try_except,
    websocket_send, logger, emit, ret, write_outcome; simpl.
  destruct (websocket (self w)) as [h|]; simpl.
  - destruct (closed (conn w)) eqn:Hc; simpl.
    + rewrite <- !List.app_assoc, List.app_nil_r.
      repeat split; reflexivity || assumption.
    + destruct (faults w) as [|[e|] rest]; simpl;
        rewrite <- ?List.app_assoc, ?List.app_nil_r;
        repeat split; reflexivity || assumption.
  - rewrite List.app_nil_r. repeat split; reflexivity.
Qed.



(** *** [handle_message] *)

Lemma pystr_eqb_eq (a b : pystr) : pystr_eqb a b = true <-> a = b.
Proof.
  revert b. induction a as [|x a IH]; intros [|y b]; simpl;
    try (split; [discriminate | discriminate]); try tauto.
  rewrite andb_true_iff, N.eqb_eq, IH. split.
  - intros [-> ->]. reflexivity.
  - intros E. injection E. auto.
Qed.

Lemma eq_str_lookup (d : list (pystr * pyval)) (k lit : pystr) :
  dict_lookup d k = Some (PStr lit) -> eq_str (dict_get d k) lit = true.
Proof.
  intros H. unfold dict_get. rewrite H. simpl. apply pystr_eqb_eq. reflexivity.
Qed.

(** The three shapes of [handle_message]: a ping, an echo that is not a
    ping, anything else. *)
Lemma handle_message_ping (d : list (pystr * pyval)) (w : world) :
  eq_str (dict_get d (py "type")) (py "ping") = true ->
  handle_message (PDict d) w =
    send_message (pong_reply d) (snd (logger INFO (Processing (PDict d)) w)).
Proof.
  intros H.
  unfold handle_message, pong_reply, bind, logger, emit; cbv beta iota.
  rewrite H. unfold snd at 1.
  match goal with
  | |- context [send_message ?m ?w0] =>
      destruct (send_message_spec m w0) as (Hr & _);
      destruct (send_message m w0) as [r w']
  end.
  simpl in Hr. subst r. reflexivity.
Qed.

Lemma handle_message_echo (d : list (pystr * pyval)) (w : world) :
  eq_str (dict_get d (py "type")) (py "ping") = false ->
  eq_str (dict_get d (py "command")) (py "echo") = true ->
  handle_message (PDict d) w =
    send_message (echo_reply d) (snd (logger INFO (Processing (PDict d)) w)).
Proof.
  intros H1 H2.
  unfold handle_message, echo_reply, bind, logger, emit; cbv beta iota.
  rewrite H1, H2. unfold snd at 1.
  match goal with
  | |- context [send_message ?m ?w0] =>
      destruct (send_message_spec m w0) as (Hr & _);
      destruct (send_message m w0) as [r w']
  end.
  simpl in Hr. subst r. reflexivity.
Qed.

Lemma handle_message_other (message : pyval) (w : world) :
  match message with
  | PDict d =>
      eq_str (dict_get d (py "type")) (py "ping") = false /\
      eq_str (dict_get d (py "command")) (py "echo") = false
  | _ => True
  end ->
  handle_message message w =
    (Ret PNone, snd (logger INFO (Processing message) w)).
Proof.
  intros H. unfold handle_message, bind. simpl.
  destruct message; try reflexivity.
  destruct H as [H1 H2]. rewrite H1, H2. reflexivity.
Qed.

(** [handle_message] returns [None], whatever it is given. *)
Lemma handle_message_returns (message : pyval) (w : world) :
  fst (handle_message message w) = Ret PNone.
Proof.
  destruct message as [| | | | |l|d];
    try (rewrite handle_message_other by exact I; reflexivity).
  destruct (eq_str (dict_get d (py "type")) (py "ping")) eqn:H1.
  - rewrite handle_message_ping by assumption. apply send_message_spec.
  - destruct (eq_str (dict_get d (py "command")) (py "echo")) eqn:H2.
    + rewrite handle_message_echo by assumption. apply send_message_spec.
    + rewrite handle_message_other by (split; assumption). reflexivity.
Qed.

(** C9.  [handle_message] leaves the session as it found it: the fields
    [host], [port], [websocket] and [running] of the client are the same
    after the call as before, for every message, structured or not; nor
    does it open or close a connection. *)
Theorem handle_message_preserves_session (message : pyval) (w : world) :
  let w' := snd (handle_message message w) in
  self w' = self w /\
  closed (conn w') = closed (conn w) /\
  opened w' = opened w /\
  close_calls (trace w') = close_calls (trace w).
Proof.
  assert (Hsend : forall m,
    let w' := snd (send_message m (snd (logger INFO (Processing message) w))) in
    self w' = self w /\ closed (conn w') = closed (conn w) /\
    opened w' = opened w /\ close_calls (trace w') = close_calls (trace w)).
  { intros m.
    destruct (send_message_spec m (snd (logger INFO (Processing message) w)))
      as (_ & Hs & Hc & Ho & Ht & _).
    cbv zeta. rewrite Hs, Hc, Ho, Ht. simpl.
    rewrite !close_calls_app. unfold send_events.
    destruct (websocket _); [destruct (write_outcome _)|]; simpl;
      repeat split; lia. }
  destruct message as [| | | | |l|d];
    try (rewrite handle_message_other by exact I; simpl;
         rewrite close_calls_app; simpl; repeat split; lia).
  destruct (eq_str (dict_get d (py "type")) (py "ping")) eqn:H1.
  - rewrite handle_message_ping by assumption. apply Hsend.
  - destruct (eq_str (dict_get d (py "command")) (py "echo")) eqn:H2.
    + rewrite handle_message_echo by assumption. apply Hsend.
    + rewrite handle_message_other by (split; assumption). simpl.
      rewrite close_calls_app; simpl; repeat split; lia.
Qed.

(** The frames [handle_message] passes to [websocket.send] when it
    replies on a client that holds a connection. *)
Lemma send_reply_frames (d0 : list (pystr * pyval)) (message : pyval) (w : world) :
  websocket (self w) <> None ->
  sent_frames
    (trace (snd (send_message (PDict d0)
                   (snd (logger INFO (Processing message) w))))) =
  sent_frames (trace w) ++ [json_dumps (PDict d0)].
Proof.
  intros Hws.
  destruct (send_message_spec (PDict d0)
              (snd (logger INFO (Processing message) w)))
    as (_ & _ & _ & _ & Ht & _).
  cbv zeta in Ht. rewrite Ht. unfold send_events. simpl.
  destruct (websocket (self w)); [|contradiction Hws; reflexivity].
  rewrite !sent_frames_app. simpl.
  destruct (write_outcome _); simpl; rewrite List.app_nil_r; reflexivity.
Qed.

(** C1, as the code has it.  For a structured message whose [type] field is
    ["ping"], received on a client that holds a connection, [handle_message]
    calls [websocket.send] exactly once, with the JSON text of
    [{type: "pong", timestamp: T}], where [T] is the [timestamp] field of
    the message; when the message has no such field the reply still has
    the key, with the value [None] (JSON [null]). *)
Theorem ping_gets_one_pong (d : list (pystr * pyval)) (w : world) :
  websocket (self w) <> None ->
  dict_lookup d (py "type") = Some (PStr (py "ping")) ->
  sent_frames (trace (snd (handle_message (PDict d) w))) =
    sent_frames (trace w) ++
      [json_dumps
         (PDict [(py "type", PStr (py "pong"));
                 (py "timestamp",
                  match dict_lookup d (py "timestamp") with
                  | Some T => T
                  | None => PNone
                  end)])].
Proof.
  intros Hws Hty.
  rewrite handle_message_ping by (apply eq_str_lookup; exact Hty).
  unfold pong_reply. rewrite send_reply_frames by exact Hws.
  reflexivity.
Qed.


(** C8.  The rules are tried in order and the first match wins: for a
    message with both [type = "ping"] and [command = "echo"], received on
    a client that holds a connection, the only frame written is the pong
    reply, and it is not the echo response. *)
Theorem ping_wins_over_echo (d : list (pystr * pyval)) (w : world) :
  websocket (self w) <> None ->
  dict_lookup d (py "type") = Some (PStr (py "ping")) ->
  dict_lookup d (py "command") = Some (PStr (py "echo")) ->
  sent_frames (trace (snd (handle_message (PDict d) w))) =
    sent_frames (trace w) ++ [json_dumps (pong_reply d)] /\
  json_dumps (pong_reply d) <> json_dumps (echo_reply d).
Proof.
  intros Hws Hty Hcmd. split.
  - rewrite handle_message_ping by (apply eq_str_lookup; exact Hty).
    unfold pong_reply. apply send_reply_frames. exact Hws.
  - intros E. apply (f_equal (fun frame => nth 10 frame 0)) in E.
    lazy in E. discriminate E.
Qed.

(** *** [disconnect] and the receive loop *)

(** C7.  [disconnect] is idempotent: the client and its connection are the
    same after two consecutive calls as after one.  (The second call does
    run again when the client holds a connection: it calls
    [websocket.close] and logs once more, which the trace shows and the
    state does not.) *)
Theorem disconnect_idempotent (w : world) :
  let w1 := snd (disconnect w) in
  let w2 := snd (disconnect w1) in
  fst (disconnect w1) = Ret PNone /\
  self w2 = self w1 /\
  conn w2 = conn w1 /\
  opened w2 = opened w1 /\
  faults w2 = faults w1.
Proof.
  unfold disconnect, bind, get_self, set_running, websocket_close, logger,
    emit, ret; simpl.
  destruct (websocket (self w)) as [h|] eqn:Hws; simpl; rewrite Hws;
    repeat split; reflexivity.
Qed.

(** What [disconnect] does on a client that holds a connection. *)
Lemma disconnect_cleanup (w : world) :
  websocket (self w) <> None ->
  let w' := snd (disconnect w) in
  running (self w') = false /\
  closed (conn w') = true /\
  trace w' = trace w ++ [TransportClose; Log INFO Disconnected].
Proof.
  intros Hws.
  unfold disconnect, bind, get_self, set_running, websocket_close, logger,
    emit, ret; simpl.
  destruct (websocket (self w)); [|contradiction Hws; reflexivity].
  simpl. rewrite <- List.app_assoc. repeat split; reflexivity.
Qed.

(** C3, as the code has it.  When [recv] reports that the peer closed the
    connection, the receive loop ends and [listen_for_messages] returns,
    whatever was still to come, after logging [Connection closed by server]
    -- a record [disconnect] never writes, its own being [Disconnected].
    None of the cleanup of [disconnect] is made: the fields of the client
    are untouched, so [running] stays set, and [websocket.close] is not
    called. *)
Theorem peer_close_ends_loop_without_cleanup
    (rest : list recv_outcome) (w : world) :
  running (self w) = true ->
  websocket (self w) <> None ->
  let r := listen_for_messages (RecvRaise ConnectionClosed :: rest) w in
  fst r = Some (Ret PNone) /\
  self (snd r) = self w /\
  running (self (snd r)) = true /\
  trace (snd r) =
    trace w ++ [TransportRecv (RecvRaise ConnectionClosed);
                Log INFO ClosedByServer] /\
  close_calls (trace (snd r)) = close_calls (trace w) /\
  trace (snd (disconnect w)) =
    trace w ++ [TransportClose; Log INFO Disconnected].
Proof.
  intros Hrun Hws.
  pose proof (disconnect_cleanup w Hws) as (_ & _ & Hd).
  unfold listen_for_messages. simpl. rewrite Hrun.
  destruct (websocket (self w)) as [h|] eqn:E; [|contradiction Hws; reflexivity].
  simpl. rewrite <- List.app_assoc, close_calls_app. simpl.
  repeat split; try reflexivity; try assumption; lia.
Qed.


(** *** The codec: [json.loads] undoes [json.dumps]

    First on the text of strings and integers, then on values. *)

Ltac Zify.zify_post_hook ::= Z.to_euclidean_division_equations.

(** **** Strings *)

Lemma hexval_hexdigit (d : N) : d < 16 -> hexval (hexdigit d) = Some d.
Proof.
  intros H. unfold hexdigit, hexval.
  destruct (d <? 10) eqn:E.
  - apply N.ltb_lt in E.
    replace ((48 <=? 48 + d) && (48 + d <=? 57)) with true
      by (symmetry; apply andb_true_iff; split; apply N.leb_le; lia).
    f_equal. lia.
  - apply N.ltb_ge in E.
    replace ((48 <=? 87 + d) && (87 + d <=? 57)) with false
      by (symmetry; apply andb_false_iff; right; apply N.leb_gt; lia).
    replace ((97 <=? 87 + d) && (87 + d <=? 102)) with true
      by (symmetry; apply andb_true_iff; split; apply N.leb_le; lia).
    f_equal. lia.
Qed.

Lemma decode_hex4 (n : N) (t : pystr) :
  n < 65536 -> decode_uXXXX (hex4 n ++ t) = Some (n, t).
Proof.
  intros H. unfold hex4, decode_uXXXX. cbn [app].
  rewrite !hexval_hexdigit by (apply N.mod_lt; discriminate).
  f_equal. f_equal.
  replace (n / 4096) with (n / 16 / 16 / 16)
    by (rewrite !N.Div0.div_div; reflexivity).
  replace (n / 256) with (n / 16 / 16)
    by (rewrite !N.Div0.div_div; reflexivity).
  lia.
Qed.

Lemma lor_high_low (a b n : N) : b < 2 ^ n -> N.lor (a * 2 ^ n) b = a * 2 ^ n + b.
Proof.
  intros H.
  assert (L : N.land (a * 2 ^ n) b = 0).
  { apply N.bits_inj. intros i. rewrite N.land_spec, N.bits_0.
    destruct (N.lt_ge_cases i n) as [Hi|Hi].
    - rewrite N.mul_pow2_bits_low by exact Hi. reflexivity.
    - replace b with (b mod 2 ^ n) by (apply N.mod_small; exact H).
      rewrite N.mod_pow2_bits_high by exact Hi. apply andb_false_r. }
  rewrite N.add_nocarry_lxor by exact L. symmetry. apply N.lxor_lor. exact L.
Qed.

Lemma surrogates (c : N) :
  0x10000 <= c -> c <= 0x10ffff ->
  let n := c - 0x10000 in
  let s1 := N.lor 0xd800 (N.land (N.shiftr n 10) 0x3ff) in
  let s2 := N.lor 0xdc00 (N.land n 0x3ff) in
  (0xd800 <= s1 /\ s1 <= 0xdbff) /\ (0xdc00 <= s2 /\ s2 <= 0xdfff) /\
  0x10000 + N.lor (N.shiftl (s1 - 0xd800) 10) (s2 - 0xdc00) = c.
Proof.
  intros Hlo Hhi n s1 s2.
  assert (Hn : n < 0x100000) by (unfold n; lia).
  assert (E1 : s1 = 0xd800 + n / 1024).
  { unfold s1. change 0x3ff with (N.ones 10).
    rewrite N.land_ones, N.shiftr_div_pow2.
    change (2 ^ 10) with 1024.
    rewrite (N.mod_small (n / 1024) 1024) by lia.
    change 0xd800 with (54 * 2 ^ 10).
    rewrite lor_high_low by (change (2 ^ 10) with 1024; lia). reflexivity. }
  assert (E2 : s2 = 0xdc00 + n mod 1024).
  { unfold s2. change 0x3ff with (N.ones 10).
    rewrite N.land_ones. change (2 ^ 10) with 1024.
    change 0xdc00 with (55 * 2 ^ 10).
    rewrite lor_high_low by (change (2 ^ 10) with 1024; lia). reflexivity. }
  rewrite E1, E2.
  replace (0xd800 + n / 1024 - 0xd800) with (n / 1024) by lia.
  replace (0xdc00 + n mod 1024 - 0xdc00) with (n mod 1024) by lia.
  rewrite N.shiftl_mul_pow2, lor_high_low by (change (2 ^ 10) with 1024; lia).
  change (2 ^ 10) with 1024. unfold n in *. lia.
Qed.

Lemma scanstring_loop_plain (n : nat) (c : N) (r : pystr) :
  (c =? 34) = false -> (c =? 92) = false -> (c <? 32) = false ->
  scanstring_loop (S n) (c :: r) = cons_char c (scanstring_loop n r).
Proof. intros H1 H2 H3. cbn [scanstring_loop]. rewrite H1, H2, H3. reflexivity. Qed.

Lemma scanstring_loop_u (n : nat) (r1 : pystr) :
  scanstring_loop (S n) (92 :: 117 :: r1) =
  match decode_uXXXX r1 with
  | None => None
  | Some (uni, r2) =>
      if (0xd800 <=? uni) && (uni <=? 0xdbff) then
        match strip_prefix [92; 117] r2 with
        | Some r3 =>
            match decode_uXXXX r3 with
            | None => None
            | Some (uni2, r4) =>
                if (0xdc00 <=? uni2) && (uni2 <=? 0xdfff) then
                  cons_char
                    (0x10000 + N.lor (N.shiftl (uni - 0xd800) 10) (uni2 - 0xdc00))
                    (scanstring_loop n r4)
                else cons_char uni (scanstring_loop n r2)
            end
        | None => cons_char uni (scanstring_loop n r2)
        end
      else cons_char uni (scanstring_loop n r2)
  end.
Proof. reflexivity. Qed.

Lemma scan_escape_char (c : N) (n : nat) (t : pystr) :
  is_scalar c = true ->
  scanstring_loop (S n) (escape_char c ++ t) = cons_char c (scanstring_loop n t).
Proof.
  intros Hs. unfold escape_char.
  destruct (c =? 34) eqn:E1; [apply N.eqb_eq in E1; subst c; reflexivity|].
  destruct (c =? 92) eqn:E2; [apply N.eqb_eq in E2; subst c; reflexivity|].
  destruct (c =? 10) eqn:E3; [apply N.eqb_eq in E3; subst c; reflexivity|].
  destruct (c =? 13) eqn:E4; [apply N.eqb_eq in E4; subst c; reflexivity|].
  destruct (c =? 9) eqn:E5; [apply N.eqb_eq in E5; subst c; reflexivity|].
  destruct (c =? 8) eqn:E6; [apply N.eqb_eq in E6; subst c; reflexivity|].
  destruct (c =? 12) eqn:E7; [apply N.eqb_eq in E7; subst c; reflexivity|].
  destruct ((32 <=? c) && (c <=? 126)) eqn:E8.
  - apply andb_true_iff in E8. destruct E8 as [Hlo Hhi].
    apply N.leb_le in Hlo. cbn [app].
    apply scanstring_loop_plain; try assumption. apply N.ltb_ge. exact Hlo.
  - unfold is_scalar in Hs.
    destruct (c <? 0x10000) eqn:E9.
    + apply N.ltb_lt in E9. cbn [app].
      rewrite scanstring_loop_u, decode_hex4 by exact E9.
      replace ((0xd800 <=? c) && (c <=? 0xdbff)) with false; [reflexivity|].
      symmetry. apply andb_false_iff.
      apply orb_true_iff in Hs. destruct Hs as [Hs|Hs].
      * left. apply N.ltb_lt in Hs. apply N.leb_gt. exact Hs.
      * right. apply andb_true_iff in Hs. destruct Hs as [Hs _].
        apply N.ltb_lt in Hs. apply N.leb_gt. lia.
    + apply N.ltb_ge in E9.
      assert (Hhi : c <= 0x10ffff).
      { apply orb_true_iff in Hs. destruct Hs as [Hs|Hs].
        - apply N.ltb_lt in Hs. lia.
        - apply andb_true_iff in Hs. destruct Hs as [_ Hs].
          apply N.leb_le in Hs. exact Hs. }
      destruct (surrogates E9 Hhi) as ((A1 & A2) & (B1 & B2) & Hc).
      cbv zeta. cbn [app].
      rewrite scanstring_loop_u.
      rewrite <- List.app_assoc.
      rewrite decode_hex4 by lia.
      replace ((0xd800 <=? _) && (_ <=? 0xdbff)) with true
        by (symmetry; apply andb_true_iff; split; apply N.leb_le; assumption).
      rewrite <- !List.app_comm_cons.
      cbn [strip_prefix N.eqb Pos.eqb].
      rewrite decode_hex4 by lia.
      replace ((0xdc00 <=? _) && (_ <=? 0xdfff)) with true
        by (symmetry; apply andb_true_iff; split; apply N.leb_le; assumption).
      rewrite Hc. reflexivity.
Qed.

Lemma escape_char_nonempty (c : N) : (1 <= List.length (escape_char c))%nat.
Proof.
  unfold escape_char.
  repeat match goal with
         | |- context [if ?b then _ else _] => destruct b
         end; cbn [List.length hex4 app]; lia.
Qed.

Lemma scanstring_encoded (s : pystr) :
  forallb is_scalar s = true ->
  forall (n : nat) (t : pystr),
    (List.length s < n)%nat ->
    scanstring_loop n (flat_map escape_char s ++ 34 :: t) = Some (s, t).
Proof.
  induction s as [|c s IH]; intros Hs n t Hn.
  - destruct n; [lia|]. reflexivity.
  - cbn [forallb] in Hs. apply andb_true_iff in Hs. destruct Hs as [Hc Hs].
    destruct n; [cbn in Hn; lia|].
    cbn [flat_map]. rewrite <- List.app_assoc, scan_escape_char by exact Hc.
    rewrite IH by (assumption || (cbn in Hn; lia)). reflexivity.
Qed.

Lemma flat_map_escape_length (s : pystr) :
  (List.length s <= List.length (flat_map escape_char s))%nat.
Proof.
  induction s as [|c s IH]; [reflexivity|].
  cbn [flat_map List.length]. rewrite List.length_app.
  pose proof (escape_char_nonempty c). lia.
Qed.

Lemma scanstring_dumps (s t : pystr) :
  forallb is_scalar s = true ->
  scanstring (flat_map escape_char s ++ 34 :: t) = Some (s, t).
Proof.
  intros Hs. unfold scanstring. apply scanstring_encoded; [exact Hs|].
  rewrite List.length_app. cbn [List.length].
  pose proof (flat_map_escape_length s). lia.
Qed.

(** **** Integers *)

Lemma delimited_inv (rest : pystr) :
  delimited rest = true ->
  rest = [] \/ exists c r, rest = c :: r /\ (c = 44 \/ c = 93 \/ c = 125).
Proof.
  destruct rest as [|c r]; [left; reflexivity|].
  cbn [delimited]. intros H. right. exists c, r. split; [reflexivity|].
  apply orb_true_iff in H. destruct H as [H|H].
  - apply orb_true_iff in H. destruct H as [H|H]; apply N.eqb_eq in H; auto.
  - apply N.eqb_eq in H. auto.
Qed.

Lemma delimited_no_digit (rest : pystr) :
  delimited rest = true -> no_digit_ahead rest.
Proof.
  intros H. destruct (delimited_inv rest H) as [->|(c & r & -> & [->|[->| ->]])];
    cbn; auto.
Qed.

Lemma uint_of_digits_str (u : Decimal.uint) : uint_of_digits (uint_str u) = u.
Proof.
  induction u; cbn [uint_str uint_of_digits]; try reflexivity;
    rewrite IHu; reflexivity.
Qed.

Lemma span_digits_str (u : Decimal.uint) (rest : pystr) :
  no_digit_ahead rest ->
  span_digits (uint_str u ++ rest) = (uint_str u, rest).
Proof.
  intros H. induction u; cbn [uint_str app span_digits];
    try (rewrite IHu; reflexivity).
  destruct rest as [|c r]; [reflexivity|].
  cbn [span_digits]. cbn in H. rewrite H. reflexivity.
Qed.

Lemma pos_to_uint_not_D0 (p : positive) (u : Decimal.uint) :
  Pos.to_uint p <> Decimal.D0 u.
Proof.
  intros E.
  assert (H : Pos.to_uint p = Decimal.unorm (Pos.to_uint p)).
  { rewrite <- (DecimalPos.Unsigned.to_of (Pos.to_uint p)).
    rewrite DecimalPos.Unsigned.of_to. reflexivity. }
  rewrite E, unorm_D0 in H. unfold Decimal.unorm in H.
  destruct (Decimal.nzhead u) eqn:En.
  - injection H as ->. apply (DecimalPos.Unsigned.to_uint_nonzero p). exact E.
  - symmetry in H. revert H. rewrite <- En. apply nzhead_nonzero.
  - discriminate H.
  - discriminate H.
  - discriminate H.
  - discriminate H.
  - discriminate H.
  - discriminate H.
  - discriminate H.
  - discriminate H.
  - discriminate H.
Qed.

Lemma match_integer_pos (p : positive) (rest : pystr) :
  no_digit_ahead rest ->
  match_integer (uint_str (Pos.to_uint p) ++ rest) =
    Some (uint_str (Pos.to_uint p), rest).
Proof.
  intros H.
  pose proof (DecimalPos.Unsigned.to_uint_nonnil p) as Hnil.
  pose proof (pos_to_uint_not_D0 p) as H0.
  destruct (Pos.to_uint p) as [|u|u|u|u|u|u|u|u|u|u];
    [contradiction Hnil; reflexivity | contradiction (H0 u); reflexivity | ..];
    cbn [uint_str app]; unfold match_integer;
    cbn [N.eqb Pos.eqb is_digit N.leb N.compare Pos.compare Pos.compare_cont andb app];
    rewrite span_digits_str by exact H; reflexivity.
Qed.

Lemma match_integer_neg (p : positive) (rest : pystr) :
  no_digit_ahead rest ->
  match_integer (45 :: uint_str (Pos.to_uint p) ++ rest) =
    Some (45 :: uint_str (Pos.to_uint p), rest).
Proof.
  intros H.
  pose proof (DecimalPos.Unsigned.to_uint_nonnil p) as Hnil.
  pose proof (pos_to_uint_not_D0 p) as H0.
  destruct (Pos.to_uint p) as [|u|u|u|u|u|u|u|u|u|u];
    [contradiction Hnil; reflexivity | contradiction (H0 u); reflexivity | ..];
    cbn [uint_str app]; unfold match_integer;
    cbn [N.eqb Pos.eqb is_digit N.leb N.compare Pos.compare Pos.compare_cont andb app];
    rewrite span_digits_str by exact H; reflexivity.
Qed.

Lemma match_integer_repr (z : Z) (rest : pystr) :
  no_digit_ahead rest ->
  match_integer (int_repr z ++ rest) = Some (int_repr z, rest).
Proof.
  intros H. unfold int_repr. destruct z as [|p|p]; cbn [Z.to_int].
  - reflexivity.
  - apply match_integer_pos. exact H.
  - apply match_integer_neg. exact H.
Qed.

Lemma uint_str_head_digit (u : Decimal.uint) :
  match uint_str u with
  | [] => True
  | c :: _ => is_digit c = true
  end.
Proof. destruct u; cbn; auto. Qed.

Lemma parse_int_repr (z : Z) : parse_int (int_repr z) = z.
Proof.
  unfold int_repr. rewrite <- (DecimalZ.of_to z) at 2.
  destruct (Z.to_int z) as [u|u].
  - unfold parse_int.
    pose proof (uint_str_head_digit u) as Hd.
    pose proof (uint_of_digits_str u) as Hu.
    destruct (uint_str u) as [|c r] eqn:E.
    + destruct u; try discriminate E. reflexivity.
    + destruct (c =? 45) eqn:E45.
      * apply N.eqb_eq in E45. subst c. discriminate Hd.
      * rewrite Hu. reflexivity.
  - unfold parse_int. cbn [N.eqb Pos.eqb]. rewrite uint_of_digits_str. reflexivity.
Qed.

Lemma match_frac_delimited (rest : pystr) :
  delimited rest = true -> match_frac rest = None.
Proof.
  intros H. destruct (delimited_inv rest H) as [->|(c & r & -> & [->|[->| ->]])];
    reflexivity.
Qed.

Lemma match_exp_delimited (rest : pystr) :
  delimited rest = true -> match_exp rest = None.
Proof.
  intros H. destruct (delimited_inv rest H) as [->|(c & r & -> & [->|[->| ->]])];
    reflexivity.
Qed.

(** The first character of the text of an integer: a minus sign or a
    digit. *)
Lemma int_repr_head (z : Z) :
  exists c r, int_repr z = c :: r /\ (c = 45 \/ is_digit c = true).
Proof.
  unfold int_repr. destruct z as [|p|p]; cbn [Z.to_int].
  - exists 48, []. split; [reflexivity|right; reflexivity].
  - pose proof (DecimalPos.Unsigned.to_uint_nonnil p) as Hnil.
    pose proof (uint_str_head_digit (Pos.to_uint p)) as Hd.
    destruct (Pos.to_uint p) eqn:E; try (contradiction Hnil; reflexivity);
      cbn [uint_str] in *; eexists _, _; (split; [reflexivity|right; exact Hd]).
  - eexists _, _. split; [reflexivity|left; reflexivity].
Qed.

(** **** Values *)

(** Induction on a value, with the hypothesis on every item of a list and
    of a dict. *)
Lemma pyval_ind (P : pyval -> Prop) :
  P PNone ->
  (forall b, P (PBool b)) ->
  (forall z, P (PInt z)) ->
  (forall f, P (PFloat f)) ->
  (forall s, P (PStr s)) ->
  (forall l, Forall P l -> P (PList l)) ->
  (forall d, Forall (fun kv => P (snd kv)) d -> P (PDict d)) ->
  forall v, P v.
Proof.
  intros HN HB HI HF HS HL HD.
  fix IH 1. intros [| b | z | f | s | l | d].
  - exact HN.
  - apply HB.
  - apply HI.
  - apply HF.
  - apply HS.
  - apply HL. induction l as [|x l IHl]; constructor; [apply IH | exact IHl].
  - apply HD. induction d as [|[k x] d IHd]; constructor; [apply IH | exact IHd].
Qed.

Lemma digit_value_start (c : N) : is_digit c = true -> value_start c.
Proof.
  unfold is_digit, value_start, is_ws. intros H.
  apply andb_true_iff in H. destruct H as [H1 H2].
  apply N.leb_le in H1. apply N.leb_le in H2.
  repeat split; repeat (apply orb_false_iff; split); apply N.eqb_neq; lia.
Qed.

Lemma json_dumps_head (v : pyval) :
  json_wf v = true ->
  exists c r, json_dumps v = c :: r /\ value_start c.
Proof.
  destruct v as [| [|] | z | f | s | l | d]; cbn [json_wf json_dumps]; intros H;
    try discriminate H;
    try (eexists _, _; split; [reflexivity | repeat split; reflexivity]).
  destruct (int_repr_head z) as (c & r & E & [->|Hd]).
  - exists 45, r. split; [exact E | repeat split; reflexivity].
  - exists c, r. split; [exact E | apply digit_value_start; exact Hd].
Qed.

Lemma skip_ws_start (c : N) (r : pystr) :
  value_start c -> skip_ws (c :: r) = c :: r.
Proof. intros (H & _). cbn [skip_ws]. rewrite H. reflexivity. Qed.

Lemma skip_ws_dumps (v : pyval) (t : pystr) :
  json_wf v = true -> skip_ws (json_dumps v ++ t) = json_dumps v ++ t.
Proof.
  intros H. destruct (json_dumps_head v H) as (c & r & -> & Hc).
  apply skip_ws_start. exact Hc.
Qed.

(** The number branch of the scanner is reached from a minus sign or a
    digit. *)
Lemma scan_once_number (fuel : nat) (c : N) (r : pystr) (x : pyval * pystr) :
  c = 45 \/ is_digit c = true ->
  scan_number (c :: r) = Some x ->
  scan_once (S fuel) (c :: r) = Some x.
Proof.
  intros Hc Hx.
  assert (Hne : (c =? 34) = false /\ (c =? 123) = false /\ (c =? 91) = false /\
                (110 =? c) = false /\ (116 =? c) = false /\ (102 =? c) = false).
  { destruct Hc as [->|Hd]; [repeat split; reflexivity|].
    unfold is_digit in Hd. apply andb_true_iff in Hd. destruct Hd as [H1 H2].
    apply N.leb_le in H1. apply N.leb_le in H2.
    repeat split; apply N.eqb_neq; lia. }
  destruct Hne as (H1 & H2 & H3 & H4 & H5 & H6).
  cbn [scan_once]. rewrite H1, H2, H3.
  unfold scan_constant.
  change (py "null") with (110 :: py "ull").
  change (py "true") with (116 :: py "rue").
  change (py "false") with (102 :: py "alse").
  cbn [strip_prefix]. rewrite H4, H5, H6. cbn [or_else]. rewrite Hx. reflexivity.
Qed.

Lemma scan_once_int (fuel : nat) (z : Z) (rest : pystr) :
  delimited rest = true ->
  scan_once (S fuel) (int_repr z ++ rest) = Some (PInt z, rest).
Proof.
  intros Hrest.
  assert (Hn : scan_number (int_repr z ++ rest) = Some (PInt z, rest)).
  { unfold scan_number.
    rewrite match_integer_repr by (apply delimited_no_digit; exact Hrest).
    rewrite match_frac_delimited, match_exp_delimited by exact Hrest.
    rewrite parse_int_repr. reflexivity. }
  destruct (int_repr_head z) as (c & r & E & Hc).
  rewrite E in *. cbn [app] in *. apply scan_once_number; assumption.
Qed.

Lemma scan_once_str (fuel : nat) (s rest : pystr) :
  forallb is_scalar s = true ->
  scan_once (S fuel) (encode_basestring_ascii s ++ rest) = Some (PStr s, rest).
Proof.
  intros Hs. unfold encode_basestring_ascii.
  cbn [app scan_once N.eqb Pos.eqb].
  rewrite <- List.app_assoc. cbn [app].
  rewrite scanstring_dumps by exact Hs. reflexivity.
Qed.

(** **** Containers *)

Lemma join_items_cons (x : pystr) (xs : list pystr) (t : pystr) :
  join_items (x :: xs) ++ t =
  x ++ match xs with
       | [] => t
       | _ :: _ => 44 :: 32 :: join_items xs ++ t
       end.
Proof.
  destruct xs as [|y ys]; [reflexivity|].
  cbn [join_items]. rewrite <- !List.app_assoc. reflexivity.
Qed.

Lemma array_items_join (scan : pystr -> option (pyval * pystr))
    (x : pyval) (l : list pyval) :
  Forall (reads_back scan) (x :: l) ->
  forall (n : nat) (rest : pystr),
    (List.length (x :: l) <= n)%nat ->
    array_items scan n (join_items (map json_dumps (x :: l)) ++ 93 :: rest) =
      Some (x :: l, rest).
Proof.
  revert x. induction l as [|y l IH]; intros x HF n rest Hn.
  - destruct n; [cbn in Hn; lia|].
    inversion HF as [|? ? (_ & Hx) _]; subst.
    cbn [map join_items array_items].
    rewrite Hx by reflexivity. reflexivity.
  - destruct n; [cbn in Hn; lia|].
    inversion HF as [|? ? (_ & Hx) HF']; subst.
    assert (Hy : json_wf y = true) by (inversion HF' as [|? ? (Hy & _) _]; exact Hy).
    cbn [map]. rewrite join_items_cons. cbn [array_items].
    rewrite Hx by reflexivity.
    cbn [skip_ws is_ws N.eqb Pos.eqb orb].
    change (map json_dumps (y :: l)) with (json_dumps y :: map json_dumps l).
    rewrite join_items_cons, skip_ws_dumps by exact Hy.
    rewrite <- join_items_cons.
    change (json_dumps y :: map json_dumps l) with (map json_dumps (y :: l)).
    rewrite IH by (assumption || (cbn in Hn; cbn; lia)).
    reflexivity.
Qed.

Lemma dict_item_app (k : pystr) (x : pyval) (t : pystr) :
  dict_item (k, x) ++ t =
  34 :: flat_map escape_char k ++ 34 :: 58 :: 32 :: json_dumps x ++ t.
Proof.
  unfold dict_item, encode_basestring_ascii. cbn [fst snd].
  change (py ": ") with [58; 32].
  cbn [app]. rewrite <- !List.app_assoc. reflexivity.
Qed.

Lemma object_items_join (scan : pystr -> option (pyval * pystr))
    (kv : pystr * pyval) (d : list (pystr * pyval)) :
  Forall (item_reads_back scan) (kv :: d) ->
  forall (n : nat) (rest : pystr),
    (List.length (kv :: d) <= n)%nat ->
    object_items scan n (join_items (map dict_item (kv :: d)) ++ 125 :: rest) =
      Some (kv :: d, rest).
Proof.
  revert kv. induction d as [|[k' y] d IH]; intros [k x] HF n rest Hn.
  - destruct n; [cbn in Hn; lia|].
    inversion HF as [|? ? (Hk & Hw & Hx) _]; subst. cbn [fst snd] in *.
    cbn [map join_items]. rewrite dict_item_app.
    cbn [object_items N.eqb Pos.eqb].
    rewrite scanstring_dumps by exact Hk.
    cbn [skip_ws is_ws N.eqb Pos.eqb orb].
    rewrite skip_ws_dumps by exact Hw.
    rewrite Hx by reflexivity. reflexivity.
  - destruct n; [cbn in Hn; lia|].
    inversion HF as [|? ? (Hk & Hw & Hx) HF']; subst. cbn [fst snd] in *.
    cbn [map]. rewrite join_items_cons, dict_item_app.
    cbn [object_items N.eqb Pos.eqb].
    rewrite scanstring_dumps by exact Hk.
    cbn [skip_ws is_ws N.eqb Pos.eqb orb].
    rewrite skip_ws_dumps by exact Hw.
    rewrite Hx by reflexivity.
    cbn [skip_ws is_ws N.eqb Pos.eqb orb].
    change (map dict_item ((k', y) :: d)) with (dict_item (k', y) :: map dict_item d).
    rewrite join_items_cons, dict_item_app. cbn [skip_ws is_ws N.eqb Pos.eqb orb].
    rewrite <- dict_item_app, <- join_items_cons.
    change (dict_item (k', y) :: map dict_item d) with (map dict_item ((k', y) :: d)).
    rewrite IH by (assumption || (cbn in Hn; cbn; lia)).
    reflexivity.
Qed.

(** [dict(pairs)] keeps pairs whose keys are distinct as they are. *)
Lemma dict_set_fresh (d : list (pystr * pyval)) (k : pystr) (v : pyval) :
  existsb (pystr_eqb k) (map fst d) = false ->
  dict_set d k v = d ++ [(k, v)].
Proof.
  induction d as [|[k' v'] d IH]; intros H; [reflexivity|].
  cbn [map fst existsb] in H. apply orb_false_iff in H. destruct H as [H1 H2].
  cbn [dict_set app].
  replace (pystr_eqb k' k) with false.
  - rewrite IH by exact H2. reflexivity.
  - symmetry. destruct (pystr_eqb k' k) eqn:E; [|reflexivity].
    apply pystr_eqb_eq in E. subst k'.
    rewrite <- H1. symmetry. apply pystr_eqb_eq. reflexivity.
Qed.

Lemma existsb_app_false (k : pystr) (a b : list pystr) :
  existsb (pystr_eqb k) (a ++ b) = false <->
  existsb (pystr_eqb k) a = false /\ existsb (pystr_eqb k) b = false.
Proof. rewrite existsb_app. apply orb_false_iff. Qed.

Lemma fold_dict_set (d acc : list (pystr * pyval)) :
  distinct (map fst d) = true ->
  (forall k, In k (map fst d) -> existsb (pystr_eqb k) (map fst acc) = false) ->
  fold_left (fun a kv => dict_set a (fst kv) (snd kv)) d acc = acc ++ d.
Proof.
  revert acc. induction d as [|[k v] d IH]; intros acc Hd Hacc.
  - cbn. rewrite List.app_nil_r. reflexivity.
  - cbn [map fst distinct] in Hd. apply andb_true_iff in Hd.
    destruct Hd as [Hk Hd]. apply negb_true_iff in Hk.
    cbn [fold_left fst snd].
    rewrite dict_set_fresh by (apply Hacc; left; reflexivity).
    rewrite IH; [rewrite <- List.app_assoc; reflexivity | exact Hd |].
    intros k' Hin. rewrite map_app. apply existsb_app_false. split.
    + apply Hacc. right. exact Hin.
    + cbn [map fst existsb]. apply orb_false_iff. split; [|reflexivity].
      destruct (pystr_eqb k' k) eqn:E; [|reflexivity].
      apply pystr_eqb_eq in E. subst k'.
      rewrite <- Hk. symmetry. apply existsb_exists.
      exists k. split; [exact Hin | apply pystr_eqb_eq; reflexivity].
Qed.

Lemma dict_of_pairs_distinct (d : list (pystr * pyval)) :
  distinct (map fst d) = true -> dict_of_pairs d = d.
Proof.
  intros H. unfold dict_of_pairs. rewrite fold_dict_set; [reflexivity | exact H |].
  intros k _. reflexivity.
Qed.

(** **** The scanner on the text of a value *)

Lemma list_sum_bound (A : Type) (f : A -> nat) (l : list A) (x : A) :
  In x l -> (f x <= list_sum (map f l))%nat.
Proof.
  induction l as [|y l IH]; intros H; [contradiction H|].
  cbn [map list_sum fold_right]. fold (list_sum (map f l)).
  destruct H as [->|H]; [lia|]. specialize (IH H). lia.
Qed.

Lemma json_size_pos (v : pyval) : (1 <= json_size v)%nat.
Proof. destruct v; cbn [json_size]; lia. Qed.

Lemma list_sum_length (A : Type) (f : A -> nat) (l : list A) :
  (forall x, 1 <= f x)%nat -> (List.length l <= list_sum (map f l))%nat.
Proof.
  intros Hf. induction l as [|y l IH]; [reflexivity|].
  cbn [map list_sum fold_right List.length]. fold (list_sum (map f l)).
  specialize (Hf y). lia.
Qed.

Lemma scan_once_dumps (v : pyval) :
  json_wf v = true ->
  forall (fuel : nat) (rest : pystr),
    (json_size v <= fuel)%nat ->
    delimited rest = true ->
    scan_once fuel (json_dumps v ++ rest) = Some (v, rest).
Proof.
  induction v as [| b | z | f | s | l IHl | d IHd] using pyval_ind;
    intros Hwf fuel rest Hfuel Hrest;
    (destruct fuel as [|fuel]; [pose proof (json_size_pos PNone); cbn in Hfuel; lia|]).
  - reflexivity.
  - destruct b; reflexivity.
  - apply scan_once_int. exact Hrest.
  - discriminate Hwf.
  - apply scan_once_str. exact Hwf.
  - cbn [json_wf] in Hwf. cbn [json_size] in Hfuel.
    cbn [json_dumps]. rewrite <- List.app_comm_cons, <- List.app_assoc.
    cbn [scan_once N.eqb Pos.eqb app]. unfold JSONArray.
    destruct l as [|x l]; [reflexivity|].
    assert (HF : Forall (reads_back (scan_once fuel)) (x :: l)).
    { apply Forall_forall. intros y Hy. rewrite Forall_forall in IHl.
      rewrite forallb_forall in Hwf. split; [apply Hwf; exact Hy|].
      intros rest' Hrest'. apply IHl; try assumption; [apply Hwf; exact Hy|].
      pose proof (list_sum_bound json_size (x :: l) y Hy). lia. }
    assert (Hx : json_wf x = true)
      by (inversion HF as [|? ? (Hx & _) _]; exact Hx).
    pose proof (@array_items_join _ _ _ HF fuel rest) as Hitems.
    cbn [map] in Hitems |- *. rewrite join_items_cons in Hitems |- *.
    destruct (json_dumps_head x Hx) as (c & r & E & Hc).
    rewrite E in Hitems |- *. cbn [app] in Hitems |- *.
    rewrite skip_ws_start by exact Hc.
    destruct Hc as (_ & -> & _).
    rewrite Hitems; [reflexivity|].
    pose proof (list_sum_length json_size (x :: l) json_size_pos). lia.
  - cbn [json_wf] in Hwf. apply andb_true_iff in Hwf. destruct Hwf as [Hkeys Hwf].
    cbn [json_size] in Hfuel.
    cbn [json_dumps]. rewrite <- List.app_comm_cons, <- List.app_assoc.
    cbn [scan_once N.eqb Pos.eqb app]. unfold JSONObject.
    destruct d as [|[k x] d]; [reflexivity|].
    assert (HF : Forall (item_reads_back (scan_once fuel)) ((k, x) :: d)).
    { apply Forall_forall. intros kv Hkv. rewrite Forall_forall in IHd.
      rewrite forallb_forall in Hwf. specialize (Hwf kv Hkv).
      apply andb_true_iff in Hwf. destruct Hwf as [Hk Hv].
      split; [exact Hk|]. split; [exact Hv|].
      intros rest' Hrest'. apply IHd; try assumption.
      pose proof (list_sum_bound (fun kv => json_size (snd kv)) ((k, x) :: d) kv Hkv).
      cbn beta in *. lia. }
    pose proof (@object_items_join _ _ _ HF fuel rest) as Hitems.
    change (map (fun kv => encode_basestring_ascii (fst kv) ++ py ": "
                             ++ json_dumps (snd kv)) ((k, x) :: d))
      with (map dict_item ((k, x) :: d)).
    cbn [map] in Hitems |- *. rewrite join_items_cons in Hitems |- *.
    rewrite dict_item_app in Hitems |- *.
    cbn [skip_ws is_ws N.eqb Pos.eqb orb].
    rewrite Hitems.
    + rewrite dict_of_pairs_distinct by exact Hkeys. reflexivity.
    + pose proof (list_sum_length (fun kv => json_size (snd kv)) ((k, x) :: d)
                    (fun kv => json_size_pos (snd kv))).
      cbn [List.length] in *. lia.
Qed.

(** The fuel [json_loads] starts with covers the text of any value. *)
Lemma join_items_length (items : list pystr) :
  (list_sum (map (@List.length N) items) <= List.length (join_items items))%nat.
Proof.
  induction items as [|x xs IH]; [reflexivity|].
  cbn [map list_sum fold_right]. fold (list_sum (map (@List.length N) xs)).
  destruct xs as [|y ys].
  - cbn. lia.
  - change (join_items (x :: y :: ys))
      with (x ++ py ", " ++ join_items (y :: ys)).
    rewrite !List.length_app. lia.
Qed.

Lemma list_sum_le (A : Type) (f g : A -> nat) (l : list A) :
  Forall (fun x => f x <= g x)%nat l ->
  (list_sum (map f l) <= list_sum (map g l))%nat.
Proof.
  induction 1 as [|x l Hx _ IH]; [reflexivity|].
  cbn [map list_sum fold_right].
  fold (list_sum (map f l)). fold (list_sum (map g l)). lia.
Qed.

Lemma json_size_le_length (v : pyval) :
  json_wf v = true -> (json_size v <= List.length (json_dumps v))%nat.
Proof.
  induction v as [| b | z | f | s | l IHl | d IHd] using pyval_ind; intros Hwf.
  - cbn. lia.
  - destruct b; cbn; lia.
  - cbn [json_size json_dumps].
    destruct (int_repr_head z) as (c & r & -> & _). cbn [List.length]. lia.
  - discriminate Hwf.
  - cbn. lia.
  - cbn [json_wf] in Hwf. cbn [json_size json_dumps List.length].
    rewrite List.length_app. cbn [List.length].
    pose proof (join_items_length (map json_dumps l)) as Hj.
    rewrite map_map in Hj.
    assert (Hs : (list_sum (map json_size l) <=
                  list_sum (map (fun x => List.length (json_dumps x)) l))%nat).
    { apply list_sum_le. rewrite Forall_forall in IHl |- *.
      rewrite forallb_forall in Hwf. intros x Hx. apply IHl; auto. }
    lia.
  - cbn [json_wf] in Hwf. apply andb_true_iff in Hwf. destruct Hwf as [_ Hwf].
    cbn [json_size json_dumps List.length].
    rewrite List.length_app. cbn [List.length].
    match goal with
    | |- context [join_items (map ?item d)] =>
        pose proof (join_items_length (map item d)) as Hj
    end.
    rewrite map_map in Hj.
    match type of Hj with
    | (list_sum (map ?g d) <= _)%nat =>
        assert (Hs : (list_sum (map (fun kv => json_size (snd kv)) d) <=
                      list_sum (map g d))%nat)
    end.
    { apply list_sum_le. rewrite Forall_forall in IHd |- *.
      rewrite forallb_forall in Hwf. intros kv Hkv.
      specialize (Hwf kv Hkv). apply andb_true_iff in Hwf.
      specialize (IHd kv Hkv (proj2 Hwf)).
      cbn beta. rewrite !List.length_app. lia. }
    lia.
Qed.

(** [json.loads(json.dumps(v))] is [v], for every value JSON text can
    express. *)
Lemma json_loads_dumps (v : pyval) :
  json_wf v = true -> json_loads (json_dumps v) = Some v.
Proof.
  intros Hwf. unfold json_loads.
  pose proof (skip_ws_dumps v [] Hwf) as Hs. rewrite List.app_nil_r in Hs.
  rewrite Hs.
  pose proof (@scan_once_dumps v Hwf (S (List.length (json_dumps v))) []) as H.
  rewrite List.app_nil_r in H.
  rewrite H; [reflexivity | | reflexivity].
  pose proof (json_size_le_length v Hwf). lia.
Qed.


(** *** The fuel of the scanner

    The fuel [json_loads] starts with is as good as any: if the scanner
    accepts a text with some fuel, [json_loads] accepts it, so that [None]
    only ever stands for a text [json.loads] rejects. *)

Lemma skip_ws_length (s : pystr) : (List.length (skip_ws s) <= List.length s)%nat.
Proof.
  induction s as [|c s IH]; [reflexivity|].
  cbn [skip_ws]. destruct (is_ws c); cbn [List.length]; lia.
Qed.

Lemma span_digits_length (s ds r : pystr) :
  span_digits s = (ds, r) -> (List.length r <= List.length s)%nat.
Proof.
  revert ds r. induction s as [|c s IH]; intros ds r H.
  - injection H as <- <-. reflexivity.
  - cbn [span_digits] in H. destruct (is_digit c).
    + destruct (span_digits s) as [ds' r'] eqn:E. injection H as <- <-.
      specialize (IH ds' r' eq_refl). cbn [List.length]. lia.
    + injection H as <- <-. reflexivity.
Qed.

Lemma strip_prefix_length (p s r : pystr) :
  strip_prefix p s = Some r -> (List.length r <= List.length s)%nat.
Proof.
  revert s. induction p as [|x p IH]; intros s H.
  - injection H as <-. reflexivity.
  - destruct s as [|y s]; [discriminate H|]. cbn [strip_prefix] in H.
    destruct (x =? y); [|discriminate H].
    specialize (IH s H). cbn [List.length]. lia.
Qed.

Lemma decode_uXXXX_length (s r : pystr) (u : N) :
  decode_uXXXX s = Some (u, r) -> (List.length r <= List.length s)%nat.
Proof.
  unfold decode_uXXXX. destruct s as [|a [|b [|c [|d s]]]]; try discriminate.
  destruct (hexval a), (hexval b), (hexval c), (hexval d); try discriminate.
  intros H. injection H as _ <-. cbn [List.length]. lia.
Qed.

Lemma cons_char_inv (c : N) (o : option (pystr * pystr)) (str r : pystr) :
  cons_char c o = Some (str, r) -> exists str', o = Some (str', r).
Proof.
  destruct o as [[str' r']|]; [|discriminate].
  cbn. intros H. injection H as _ <-. exists str'. reflexivity.
Qed.

Lemma scanstring_loop_length (n : nat) (s str r : pystr) :
  scanstring_loop n s = Some (str, r) -> (List.length r <= List.length s)%nat.
Proof.
  revert s str. induction n as [|n IH]; intros s str H; [discriminate H|].
  cbn [scanstring_loop] in H.
  destruct s as [|c s]; [discriminate H|].
  destruct (c =? 34); [injection H as _ <-; cbn [List.length]; lia|].
  destruct (c =? 92).
  - destruct s as [|esc r1]; [discriminate H|].
    destruct (esc =? 117).
    + destruct (decode_uXXXX r1) as [[uni r2]|] eqn:E1; [|discriminate H].
      apply decode_uXXXX_length in E1.
      assert (Hplain : forall str0, scanstring_loop n r2 = Some (str0, r) ->
                (List.length r <= List.length (c :: esc :: r1))%nat).
      { intros str0 H0. apply IH in H0. cbn [List.length]. lia. }
      destruct ((0xd800 <=? uni) && (uni <=? 0xdbff)).
      * destruct (strip_prefix [92; 117] r2) as [r3|] eqn:E2.
        -- apply strip_prefix_length in E2.
           destruct (decode_uXXXX r3) as [[uni2 r4]|] eqn:E3; [|discriminate H].
           apply decode_uXXXX_length in E3.
           destruct ((0xdc00 <=? uni2) && (uni2 <=? 0xdfff)).
           ++ apply cons_char_inv in H. destruct H as [str0 H0].
              apply IH in H0. cbn [List.length]. lia.
           ++ apply cons_char_inv in H. destruct H as [str0 H0]. eapply Hplain, H0.
        -- apply cons_char_inv in H. destruct H as [str0 H0]. eapply Hplain, H0.
      * apply cons_char_inv in H. destruct H as [str0 H0]. eapply Hplain, H0.
    + destruct (backslash esc); [|discriminate H].
      apply cons_char_inv in H. destruct H as [str0 H0].
      apply IH in H0. cbn [List.length]. lia.
  - destruct (c <? 32); [discriminate H|].
    apply cons_char_inv in H. destruct H as [str0 H0].
    apply IH in H0. cbn [List.length]. lia.
Qed.

Lemma match_integer_length (s t r : pystr) :
  match_integer s = Some (t, r) -> (List.length r <= List.length s)%nat.
Proof.
  unfold match_integer.
  assert (Hs1 : forall s1, (List.length s1 <= List.length s)%nat ->
    match s1 with
    | c :: r0 =>
        if c =? 48 then Some ([] ++ [48], r0)
        else if is_digit c then
          let '(ds, r') := span_digits r0 in Some ([] ++ c :: ds, r')
        else None
    | [] => None
    end = Some (t, r) \/
    match s1 with
    | c :: r0 =>
        if c =? 48 then Some ([45] ++ [48], r0)
        else if is_digit c then
          let '(ds, r') := span_digits r0 in Some ([45] ++ c :: ds, r')
        else None
    | [] => None
    end = Some (t, r) ->
    (List.length r <= List.length s)%nat).
  { intros [|c r0] Hl [H|H]; try discriminate H;
      (destruct (c =? 48);
       [injection H as _ <-; cbn [List.length] in Hl; lia|]);
      (destruct (is_digit c); [|discriminate H]);
      destruct (span_digits r0) as [ds r'] eqn:E;
      apply span_digits_length in E; injection H as _ <-;
      cbn [List.length] in Hl; lia. }
  destruct s as [|c r0].
  - discriminate.
  - destruct (c =? 45).
    + intros H. apply (Hs1 r0); [cbn [List.length]; lia | right; exact H].
    + intros H. apply (Hs1 (c :: r0)); [lia | left; exact H].
Qed.

Lemma match_frac_length (s t r : pystr) :
  match_frac s = Some (t, r) -> (List.length r <= List.length s)%nat.
Proof.
  unfold match_frac. destruct s as [|c r0]; [discriminate|].
  destruct (c =? 46); [|discriminate].
  destruct (span_digits r0) as [[|d ds] r'] eqn:E; [discriminate|].
  apply span_digits_length in E. intros H. injection H as _ <-.
  cbn [List.length]. lia.
Qed.

Lemma match_exp_length (s t r : pystr) :
  match_exp s = Some (t, r) -> (List.length r <= List.length s)%nat.
Proof.
  unfold match_exp. destruct s as [|c r0]; [discriminate|].
  destruct ((c =? 101) || (c =? 69)); [|discriminate].
  assert (Hr1 : forall sign r1, (List.length r1 <= List.length r0)%nat ->
            match span_digits r1 with
            | ([], _) => None
            | (ds, r') => Some (c :: sign ++ ds, r')
            end = Some (t, r) ->
            (List.length r <= List.length (c :: r0))%nat).
  { intros sign r1 Hl H.
    destruct (span_digits r1) as [[|d ds] r'] eqn:E; [discriminate H|].
    apply span_digits_length in E. injection H as _ <-. cbn [List.length]. lia. }
  destruct r0 as [|c2 r2].
  - intros H. apply (Hr1 [] []); [lia | exact H].
  - destruct ((c2 =? 45) || (c2 =? 43)); intros H.
    + apply (Hr1 [c2] r2); [cbn [List.length]; lia | exact H].
    + apply (Hr1 [] (c2 :: r2)); [lia | exact H].
Qed.

Lemma array_items_length (scan : pystr -> option (pyval * pystr)) :
  shrinks scan ->
  forall n s l r,
    array_items scan n s = Some (l, r) -> (List.length r <= List.length s)%nat.
Proof.
  intros Hscan. induction n as [|n IH]; intros s l r H; [discriminate H|].
  cbn [array_items] in H.
  destruct (scan s) as [[value r0]|] eqn:E; [|discriminate H].
  apply Hscan in E. pose proof (skip_ws_length r0) as Hw.
  destruct (skip_ws r0) as [|c r'] eqn:Ew; [discriminate H|].
  cbn [List.length] in Hw.
  destruct (c =? 93); [injection H as _ <-; lia|].
  destruct (c =? 44); [|discriminate H].
  destruct (array_items scan n (skip_ws r')) as [[values r'']|] eqn:E';
    [|discriminate H].
  injection H as _ <-. apply IH in E'. pose proof (skip_ws_length r'). lia.
Qed.

Lemma object_items_length (scan : pystr -> option (pyval * pystr)) :
  shrinks scan ->
  forall n s l r,
    object_items scan n s = Some (l, r) -> (List.length r <= List.length s)%nat.
Proof.
  intros Hscan. induction n as [|n IH]; intros s l r H; [discriminate H|].
  cbn [object_items] in H.
  destruct s as [|c r0]; [discriminate H|].
  destruct (c =? 34); [|discriminate H].
  destruct (scanstring r0) as [[key r1]|] eqn:E1; [|discriminate H].
  apply scanstring_loop_length in E1. pose proof (skip_ws_length r1) as Hw1.
  destruct (skip_ws r1) as [|c1 r2] eqn:Ew1; [discriminate H|].
  cbn [List.length] in Hw1.
  destruct (c1 =? 58); [|discriminate H].
  destruct (scan (skip_ws r2)) as [[value r3]|] eqn:E3; [|discriminate H].
  apply Hscan in E3. pose proof (skip_ws_length r2) as Hw2.
  pose proof (skip_ws_length r3) as Hw3.
  destruct (skip_ws r3) as [|c3 r4] eqn:Ew3; [discriminate H|].
  cbn [List.length] in Hw3 |- *.
  destruct (c3 =? 125); [injection H as _ <-; lia|].
  destruct (c3 =? 44); [|discriminate H].
  destruct (object_items scan n (skip_ws r4)) as [[pairs r5]|] eqn:E5;
    [|discriminate H].
  injection H as _ <-. apply IH in E5. pose proof (skip_ws_length r4). lia.
Qed.

Lemma scan_number_length (s r : pystr) (v : pyval) :
  scan_number s = Some (v, r) -> (List.length r <= List.length s)%nat.
Proof.
  unfold scan_number.
  destruct (match_integer s) as [[integer r1]|] eqn:E1; [|discriminate].
  apply match_integer_length in E1.
  destruct (match_frac r1) as [[frac r2]|] eqn:E2.
  - apply match_frac_length in E2.
    destruct (match_exp r2) as [[exp r3]|] eqn:E3.
    + apply match_exp_length in E3. intros H. injection H as _ <-. lia.
    + intros H. injection H as _ <-. lia.
  - destruct (match_exp r1) as [[exp r3]|] eqn:E3.
    + apply match_exp_length in E3. intros H. injection H as _ <-. lia.
    + intros H. injection H as _ <-. lia.
Qed.

Lemma scan_constant_length (lit s r : pystr) (v0 v : pyval) :
  scan_constant lit v0 s = Some (v, r) -> (List.length r <= List.length s)%nat.
Proof.
  unfold scan_constant.
  destruct (strip_prefix lit s) as [r0|] eqn:E; [|discriminate].
  apply strip_prefix_length in E. intros H. injection H as _ <-. exact E.
Qed.

Lemma or_else_inv (A : Type) (a b : option A) (x : A) :
  or_else a b = Some x -> a = Some x \/ b = Some x.
Proof. destruct a; cbn; auto. Qed.

Lemma scan_once_length (fuel : nat) : shrinks (scan_once fuel).
Proof.
  induction fuel as [|fuel IH]; intros s v r H; [discriminate H|].
  cbn [scan_once] in H. destruct s as [|c r0]; [discriminate H|].
  destruct (c =? 34).
  { destruct (scanstring r0) as [[str r']|] eqn:E; [|discriminate H].
    apply scanstring_loop_length in E. injection H as _ <-.
    cbn [List.length]. lia. }
  destruct (c =? 123).
  { unfold JSONObject in H. pose proof (skip_ws_length r0) as Hw.
    destruct (skip_ws r0) as [|c' r'] eqn:Ew; [discriminate H|].
    cbn [List.length] in Hw |- *.
    destruct (c' =? 125); [injection H as _ <-; lia|].
    destruct (object_items (scan_once fuel) fuel (c' :: r'))
      as [[pairs r'']|] eqn:E; [|discriminate H].
    apply (object_items_length IH) in E. injection H as _ <-.
    cbn [List.length] in E. lia. }
  destruct (c =? 91).
  { unfold JSONArray in H. pose proof (skip_ws_length r0) as Hw.
    destruct (skip_ws r0) as [|c' r'] eqn:Ew; [discriminate H|].
    cbn [List.length] in Hw |- *.
    destruct (c' =? 93); [injection H as _ <-; lia|].
    destruct (array_items (scan_once fuel) fuel (c' :: r'))
      as [[values r'']|] eqn:E; [|discriminate H].
    apply (array_items_length IH) in E. injection H as _ <-.
    cbn [List.length] in E. lia. }
  repeat (apply or_else_inv in H; destruct H as [H|H]);
    try (apply scan_constant_length in H; exact H).
  apply scan_number_length in H. exact H.
Qed.

(** More fuel keeps what was accepted. *)
Lemma array_items_mono (scan scan' : pystr -> option (pyval * pystr)) :
  extends scan scan' ->
  forall n n' s x,
    (n <= n')%nat -> array_items scan n s = Some x ->
    array_items scan' n' s = Some x.
Proof.
  intros Hext. induction n as [|n IH]; intros n' s x Hn H; [discriminate H|].
  destruct n' as [|n']; [lia|].
  cbn [array_items] in H |- *.
  destruct (scan s) as [[value r0]|] eqn:E; [|discriminate H].
  rewrite (Hext _ _ E).
  destruct (skip_ws r0) as [|c r']; [discriminate H|].
  destruct (c =? 93); [exact H|].
  destruct (c =? 44); [|discriminate H].
  destruct (array_items scan n (skip_ws r')) as [[values r'']|] eqn:E';
    [|discriminate H].
  rewrite (IH n' _ _ ltac:(lia) E'). exact H.
Qed.

Lemma object_items_mono (scan scan' : pystr -> option (pyval * pystr)) :
  extends scan scan' ->
  forall n n' s x,
    (n <= n')%nat -> object_items scan n s = Some x ->
    object_items scan' n' s = Some x.
Proof.
  intros Hext. induction n as [|n IH]; intros n' s x Hn H; [discriminate H|].
  destruct n' as [|n']; [lia|].
  cbn [object_items] in H |- *.
  destruct s as [|c r0]; [discriminate H|].
  destruct (c =? 34); [|discriminate H].
  destruct (scanstring r0) as [[key r1]|]; [|discriminate H].
  destruct (skip_ws r1) as [|c1 r2]; [discriminate H|].
  destruct (c1 =? 58); [|discriminate H].
  destruct (scan (skip_ws r2)) as [[value r3]|] eqn:E3; [|discriminate H].
  rewrite (Hext _ _ E3).
  destruct (skip_ws r3) as [|c3 r4]; [discriminate H|].
  destruct (c3 =? 125); [exact H|].
  destruct (c3 =? 44); [|discriminate H].
  destruct (object_items scan n (skip_ws r4)) as [[pairs r5]|] eqn:E5;
    [|discriminate H].
  rewrite (IH n' _ _ ltac:(lia) E5). exact H.
Qed.

Lemma scan_once_mono (fuel : nat) :
  forall fuel', (fuel <= fuel')%nat -> extends (scan_once fuel) (scan_once fuel').
Proof.
  induction fuel as [|fuel IH]; intros fuel' Hf s x H; [discriminate H|].
  destruct fuel' as [|fuel']; [lia|].
  assert (Hext : extends (scan_once fuel) (scan_once fuel'))
    by (apply IH; lia).
  cbn [scan_once] in H |- *. destruct s as [|c r0]; [discriminate H|].
  destruct (c =? 34); [exact H|].
  destruct (c =? 123).
  { unfold JSONObject in H |- *.
    destruct (skip_ws r0) as [|c' r']; [discriminate H|].
    destruct (c' =? 125); [exact H|].
    destruct (object_items (scan_once fuel) fuel (c' :: r'))
      as [[pairs r'']|] eqn:E; [|discriminate H].
    rewrite (@object_items_mono _ _ Hext fuel fuel' _ _ ltac:(lia) E). exact H. }
  destruct (c =? 91).
  { unfold JSONArray in H |- *.
    destruct (skip_ws r0) as [|c' r']; [discriminate H|].
    destruct (c' =? 93); [exact H|].
    destruct (array_items (scan_once fuel) fuel (c' :: r'))
      as [[values r'']|] eqn:E; [|discriminate H].
    rewrite (@array_items_mono _ _ Hext fuel fuel' _ _ ltac:(lia) E). exact H. }
  exact H.
Qed.

(** Fuel beyond the length of the text changes nothing. *)
Lemma array_items_saturated (scan scan' : pystr -> option (pyval * pystr)) :
  shrinks scan ->
  forall n n' s,
    (List.length s < n)%nat -> (n <= n')%nat ->
    agree_upto (List.length s) scan scan' ->
    array_items scan n s = array_items scan' n' s.
Proof.
  intros Hscan. induction n as [|n IH]; intros n' s Hs Hn Hag; [lia|].
  destruct n' as [|n']; [lia|].
  cbn [array_items]. rewrite <- (Hag s) by lia.
  destruct (scan s) as [[value r0]|] eqn:E; [|reflexivity].
  apply Hscan in E. pose proof (skip_ws_length r0) as Hw.
  destruct (skip_ws r0) as [|c r']; [reflexivity|]. cbn [List.length] in Hw.
  destruct (c =? 93); [reflexivity|]. destruct (c =? 44); [|reflexivity].
  pose proof (skip_ws_length r') as Hw'.
  rewrite (IH n' (skip_ws r')); [reflexivity | lia | lia |].
  intros s' Hs'. apply Hag. lia.
Qed.

Lemma object_items_saturated (scan scan' : pystr -> option (pyval * pystr)) :
  shrinks scan ->
  forall n n' s,
    (List.length s < n)%nat -> (n <= n')%nat ->
    agree_upto (List.length s) scan scan' ->
    object_items scan n s = object_items scan' n' s.
Proof.
  intros Hscan. induction n as [|n IH]; intros n' s Hs Hn Hag; [lia|].
  destruct n' as [|n']; [lia|].
  cbn [object_items]. destruct s as [|c r0]; [reflexivity|].
  cbn [List.length] in Hs, Hag.
  destruct (c =? 34); [|reflexivity].
  destruct (scanstring r0) as [[key r1]|] eqn:E1; [|reflexivity].
  apply scanstring_loop_length in E1. pose proof (skip_ws_length r1) as Hw1.
  destruct (skip_ws r1) as [|c1 r2]; [reflexivity|]. cbn [List.length] in Hw1.
  destruct (c1 =? 58); [|reflexivity].
  pose proof (skip_ws_length r2) as Hw2.
  rewrite <- (Hag (skip_ws r2)) by lia.
  destruct (scan (skip_ws r2)) as [[value r3]|] eqn:E3; [|reflexivity].
  apply Hscan in E3. pose proof (skip_ws_length r3) as Hw3.
  destruct (skip_ws r3) as [|c3 r4]; [reflexivity|]. cbn [List.length] in Hw3.
  destruct (c3 =? 125); [reflexivity|]. destruct (c3 =? 44); [|reflexivity].
  pose proof (skip_ws_length r4) as Hw4.
  rewrite (IH n' (skip_ws r4)); [reflexivity | lia | lia |].
  intros s' Hs'. apply Hag. lia.
Qed.

Lemma scan_once_saturated (fuel : nat) (s : pystr) :
  (List.length s < fuel)%nat -> scan_once fuel s = scan_once (S fuel) s.
Proof.
  revert s. induction fuel as [|fuel IH]; intros s Hs; [lia|].
  cbn [scan_once]. destruct s as [|c r0]; [reflexivity|].
  cbn [List.length] in Hs.
  destruct (c =? 34); [reflexivity|].
  pose proof (skip_ws_length r0) as Hw.
  destruct (c =? 123).
  { unfold JSONObject.
    destruct (skip_ws r0) as [|c' r']; [reflexivity|].
    destruct (c' =? 125); [reflexivity|].
    rewrite (@object_items_saturated _ (scan_once (S fuel))
               (@scan_once_length fuel) fuel (S fuel) (c' :: r'));
      [reflexivity | lia | lia |].
    intros s' Hs'. apply IH. lia. }
  destruct (c =? 91).
  { unfold JSONArray.
    destruct (skip_ws r0) as [|c' r']; [reflexivity|].
    destruct (c' =? 93); [reflexivity|].
    rewrite (@array_items_saturated _ (scan_once (S fuel))
               (@scan_once_length fuel) fuel (S fuel) (c' :: r'));
      [reflexivity | lia | lia |].
    intros s' Hs'. apply IH. lia. }
  reflexivity.
Qed.

Lemma scan_once_enough (s : pystr) (fuel fuel' : nat) :
  (List.length s < fuel)%nat -> (fuel <= fuel')%nat ->
  scan_once fuel s = scan_once fuel' s.
Proof.
  intros Hs Hf. induction Hf as [|fuel' Hf IH]; [reflexivity|].
  rewrite IH. apply scan_once_saturated. lia.
Qed.

(** A text the scanner accepts with some fuel, up to its end, is a text
    [json_loads] accepts, with the same value. *)
Lemma json_loads_any_fuel (s r : pystr) (fuel : nat) (v : pyval) :
  scan_once fuel (skip_ws s) = Some (v, r) -> skip_ws r = [] ->
  json_loads s = Some v.
Proof.
  intros H Hr. unfold json_loads.
  pose proof (skip_ws_length s) as Hw.
  assert (E : scan_once (S (List.length s)) (skip_ws s) = Some (v, r)).
  { destruct (Nat.le_ge_cases fuel (S (List.length s))) as [Hf|Hf].
    - exact (@scan_once_mono fuel _ Hf _ _ H).
    - rewrite (@scan_once_enough (skip_ws s) (S (List.length s)) fuel
                 ltac:(lia) Hf).
      exact H. }
  rewrite E, Hr. reflexivity.
Qed.

(** ** More of the client

    Properties of the methods beyond the claims above, and of the callers
    of the client. *)

(** *** [connect] and [disconnect] *)

(** X1.  [connect] never raises.  It returns [True] when the handshake
    succeeds, leaving the client running on a fresh, open connection with
    nothing written to it; when the handshake fails it returns [False],
    logs the failure and leaves the client and its connection as they
    were.  In neither case does it touch [host] or [port] or close a
    connection the client already had. *)
Theorem connect_never_raises (outcome : option exn) (w : world) :
  let r := connect outcome w in
  fst r = Ret (PBool match outcome with None => true | Some _ => false end) /\
  host (self (snd r)) = host (self w) /\
  port (self (snd r)) = port (self w) /\
  close_calls (trace (snd r)) = close_calls (trace w) /\
  match outcome with
  | None =>
      running (self (snd r)) = true /\
      websocket (self (snd r)) = Some (opened w) /\
      conn (snd r) = mkConnection false [] /\
      opened (snd r) = S (opened w)
  | Some e =>
      self (snd r) = self w /\
      conn (snd r) = conn w /\
      opened (snd r) = opened w /\
      log_records (trace (snd r)) =
        log_records (trace w) ++
          [(INFO, Connecting (host (self w)) (port (self w)));
           (ERROR, FailedToConnect e)]
  end.
Proof.
  destruct outcome as [e|]; cbn;
    rewrite ?close_calls_app, ?log_records_app; cbn;
    repeat split; rewrite <- ?List.app_assoc; cbn; try reflexivity; lia.
Qed.

Lemma listen_not_running (incoming : list recv_outcome) (w : world) :
  running (self w) = false \/ websocket (self w) = None ->
  listen_for_messages incoming w = (Some (Ret PNone), w).
Proof.
  intros H. unfold listen_for_messages.
  destruct incoming; cbn [listen_loop];
    destruct (running (self w)), (websocket (self w));
    try reflexivity; destruct H; discriminate.
Qed.

(** X2.  After a [connect] that failed, a new client is inert:
    [disconnect] does nothing at all, [send_message] writes nothing and
    logs [Not connected to server], and the receive loop returns at once
    without a read. *)
Theorem failed_connect_leaves_client_inert
    (h : pystr) (p : Z) (network : list (option exn)) (e : exn)
    (message : pyval) (incoming : list recv_outcome) :
  let w := snd (connect (Some e) (new_world h p network)) in
  disconnect w = (Ret PNone, w) /\
  sent_frames (trace (snd (send_message message w))) = [] /\
  log_records (trace (snd (send_message message w))) =
    log_records (trace w) ++ [(ERROR, NotConnected)] /\
  listen_for_messages incoming w = (Some (Ret PNone), w).
Proof.
  cbv zeta. split; [reflexivity|]. split; [reflexivity|]. split; [reflexivity|].
  apply listen_not_running. right. reflexivity.
Qed.


(** X4.  A receive loop started after [disconnect] returns at once: it
    reads nothing, logs nothing and leaves the world as it is, whatever
    the peer has sent. *)
Theorem listen_after_disconnect_returns
    (incoming : list recv_outcome) (w : world) :
  listen_for_messages incoming (snd (disconnect w)) =
    (Some (Ret PNone), snd (disconnect w)).
Proof.
  apply listen_not_running.
  unfold disconnect, bind, get_self. cbn.
  destruct (websocket (self w)) as [c|] eqn:E; cbn.
  - left. reflexivity.
  - right. exact E.
Qed.


(** *** [send_message] and [handle_message], end to end *)


Lemma eq_str_lookup_iff (d : list (pystr * pyval)) (k lit : pystr) :
  eq_str (dict_get d k) lit = true <-> dict_lookup d k = Some (PStr lit).
Proof.
  split; [|apply eq_str_lookup].
  unfold dict_get. destruct (dict_lookup d k) as [v|]; [|discriminate].
  destruct v; try discriminate. cbn [eq_str]. intros H.
  apply pystr_eqb_eq in H. subst. reflexivity.
Qed.

Lemma reply_to_none (message : pyval) :
  (forall d, message = PDict d ->
     dict_lookup d (py "type") <> Some (PStr (py "ping")) /\
     dict_lookup d (py "command") <> Some (PStr (py "echo"))) ->
  reply_to message = None.
Proof.
  intros H. destruct message as [| | | | | |d]; try reflexivity.
  destruct (H d eq_refl) as [H1 H2]. cbn [reply_to].
  destruct (eq_str (dict_get d (py "type")) (py "ping")) eqn:E1;
    [apply eq_str_lookup_iff in E1; contradiction|].
  destruct (eq_str (dict_get d (py "command")) (py "echo")) eqn:E2;
    [apply eq_str_lookup_iff in E2; contradiction|].
  reflexivity.
Qed.

(** [handle_message] logs, and sends the reply when there is one. *)
Lemma handle_message_reply (message : pyval) (w : world) :
  handle_message message w =
    match reply_to message with
    | Some reply => send_message reply (snd (logger INFO (Processing message) w))
    | None => (Ret PNone, snd (logger INFO (Processing message) w))
    end.
Proof.
  destruct message as [| | | | | |d];
    try (apply handle_message_other; exact I).
  cbn [reply_to].
  destruct (eq_str (dict_get d (py "type")) (py "ping")) eqn:E1;
    [apply handle_message_ping; exact E1|].
  destruct (eq_str (dict_get d (py "command")) (py "echo")) eqn:E2;
    [apply handle_message_echo; assumption|].
  apply handle_message_other. split; assumption.
Qed.

Lemma reply_is_dict (message reply : pyval) :
  reply_to message = Some reply -> exists d, reply = PDict d.
Proof.
  destruct message as [| | | | | |d]; try discriminate. cbn [reply_to].
  destruct (eq_str (dict_get d (py "type")) (py "ping")).
  - intros H. injection H as <-. eexists. reflexivity.
  - destruct (eq_str (dict_get d (py "command")) (py "echo")); [|discriminate].
    intros H. injection H as <-. eexists. reflexivity.
Qed.

(** What a call of [handle_message] leaves behind. *)
Lemma handle_message_effect (message : pyval) (w : world) :
  let w' := snd (handle_message message w) in
  fst (handle_message message w) = Ret PNone /\
  self w' = self w /\
  opened w' = opened w /\
  reads (trace w') = reads (trace w) /\
  close_calls (trace w') = close_calls (trace w) /\
  sent_frames (trace w') =
    sent_frames (trace w) ++
      match websocket (self w) with
      | Some _ => reply_frames message
      | None => []
      end.
Proof.
  cbv zeta. rewrite handle_message_reply. unfold reply_frames.
  assert (Hreads : forall a b, reads (a ++ b) = reads a ++ reads b).
  { intros a b. induction a as [|e a IH]; [reflexivity|].
    destruct e; cbn; rewrite IH; reflexivity. }
  destruct (reply_to message) as [reply|] eqn:E.
  - destruct (reply_is_dict message E) as [d ->].
    destruct (send_message_spec (PDict d)
                (snd (logger INFO (Processing message) w)))
      as (Hr & Hs & _ & Ho & Ht & _).
    cbv zeta in Hr, Hs, Ho, Ht. rewrite Hr, Hs, Ho, Ht.
    unfold send_events. cbn [logger emit snd self opened trace].
    rewrite !Hreads, !close_calls_app, !sent_frames_app.
    destruct (websocket (self w)); [destruct (write_outcome _)|]; cbn;
      rewrite ?List.app_nil_r, ?Nat.add_0_r; repeat split; reflexivity.
  - cbn. rewrite Hreads, close_calls_app, sent_frames_app. cbn.
    destruct (websocket (self w));
      rewrite ?List.app_nil_r, ?Nat.add_0_r; repeat split; reflexivity.
Qed.

(** X7.  A message that is not a dict, or a dict whose [type] is not the
    string ["ping"] and whose [command] is not the string ["echo"] --
    missing keys and values of other types included -- gets no reply:
    [handle_message] logs it, returns [None] and does nothing else, with
    or without a connection. *)
Theorem other_messages_get_no_reply (message : pyval) (w : world) :
  (forall d, message = PDict d ->
     dict_lookup d (py "type") <> Some (PStr (py "ping")) /\
     dict_lookup d (py "command") <> Some (PStr (py "echo"))) ->
  handle_message message w =
    (Ret PNone,
     mkWorld (self w) (conn w) (opened w) (faults w)
             (trace w ++ [Log INFO (Processing message)])).
Proof.
  intros H. rewrite handle_message_reply, (reply_to_none H).
  reflexivity.
Qed.

(** X8.  [handle_message] does not answer the replies it makes: neither a
    pong nor an echo response, received back, has a reply, so two such
    clients cannot keep each other busy. *)
Theorem replies_are_not_answered (d : list (pystr * pyval)) (w : world) :
  reply_to (pong_reply d) = None /\
  reply_to (echo_reply d) = None /\
  sent_frames (trace (snd (handle_message (pong_reply d) w))) =
    sent_frames (trace w) /\
  sent_frames (trace (snd (handle_message (echo_reply d) w))) =
    sent_frames (trace w).
Proof.
  assert (H1 : reply_to (pong_reply d) = None) by reflexivity.
  assert (H2 : reply_to (echo_reply d) = None) by reflexivity.
  split; [exact H1|]. split; [exact H2|].
  destruct (handle_message_effect (pong_reply d) w) as (_ & _ & _ & _ & _ & F1).
  destruct (handle_message_effect (echo_reply d) w) as (_ & _ & _ & _ & _ & F2).
  cbv zeta in F1, F2. rewrite F1, F2. unfold reply_frames. rewrite H1, H2.
  destruct (websocket (self w)); rewrite List.app_nil_r; split; reflexivity.
Qed.

(** X9.  Whatever the message, [handle_message] calls [websocket.send] at
    most once: with the text of the reply when the message has one and
    the client holds a connection, and not at all otherwise. *)
Theorem handle_message_writes_at_most_one_frame (message : pyval) (w : world) :
  sent_frames (trace (snd (handle_message message w))) =
    sent_frames (trace w) ++
      match websocket (self w) with
      | Some _ => reply_frames message
      | None => []
      end /\
  (List.length (reply_frames message) <= 1)%nat.
Proof.
  split; [apply handle_message_effect|].
  unfold reply_frames. destruct (reply_to message); cbn; lia.
Qed.

(** *** The receive loop as a whole *)

Lemma reads_app (a b : list event) : reads (a ++ b) = reads a ++ reads b.
Proof.
  induction a as [|e a IH]; [reflexivity|].
  destruct e; cbn; rewrite IH; reflexivity.
Qed.

(** One pass of the loop on a text frame is [handle_message] on what the
    frame decodes to. *)
Lemma listen_iteration_text (text : pystr) (w : world) :
  listen_iteration (RecvText text) w =
    handle_message (decode text) (received text w).
Proof.
  cbv [listen_iteration decode received bind websocket_recv try_except
       ret raise logger emit fst snd self conn opened faults trace].
  destruct (json_loads text) as [data|]; [|reflexivity].
  match goal with
  | |- context [handle_message ?m ?w0] =>
      pose proof (handle_message_returns m w0) as Hr;
      destruct (handle_message m w0) as [r w']
  end.
  cbn in Hr. subst r. reflexivity.
Qed.

(** One pass of the loop on a read that fails raises what the read
    raised, having touched neither the client nor the frames written. *)
Lemma listen_iteration_raise (e : exn) (w : world) :
  let r := listen_iteration (RecvRaise e) w in
  fst r = Raise e /\
  self (snd r) = self w /\
  opened (snd r) = opened w /\
  trace (snd r) = trace w ++ [TransportRecv (RecvRaise e)].
Proof.
  destruct e; cbn; repeat split; reflexivity.
Qed.

Lemma received_effect (text : pystr) (w : world) :
  self (received text w) = self w /\
  opened (received text w) = opened w /\
  trace (received text w) =
    trace w ++ [TransportRecv (RecvText text); Log INFO (Received text)].
Proof.
  unfold received. cbn. rewrite <- List.app_assoc. repeat split; reflexivity.
Qed.

(** The loop over a run of text frames, on a client that is running and
    holds a connection: every frame is read and answered, and the loop is
    where it was, in front of what follows. *)
Lemma listen_loop_texts (texts : list pystr) :
  forall w : world,
    running (self w) = true -> websocket (self w) <> None ->
    exists w' : world,
      (forall rest,
         listen_loop (map RecvText texts ++ rest) w = listen_loop rest w') /\
      self w' = self w /\
      opened w' = opened w /\
      close_calls (trace w') = close_calls (trace w) /\
      reads (trace w') = reads (trace w) ++ map RecvText texts /\
      sent_frames (trace w') = sent_frames (trace w) ++ replies texts.
Proof.
  induction texts as [|text texts IH]; intros w Hrun Hws.
  - exists w. cbn. rewrite !List.app_nil_r. repeat split; reflexivity.
  - destruct (received_effect text w) as (Rs & Ro & Rt).
    destruct (handle_message_effect (decode text) (received text w))
      as (Hr & Hs & Ho & Hrd & Hc & Hf).
    cbv zeta in Hs, Ho, Hrd, Hc, Hf.
    set (w1 := snd (handle_message (decode text) (received text w))) in *.
    assert (Hrun1 : running (self w1) = true) by (rewrite Hs, Rs; exact Hrun).
    assert (Hws1 : websocket (self w1) <> None) by (rewrite Hs, Rs; exact Hws).
    destruct (IH w1 Hrun1 Hws1) as (w' & E & Es & Eo & Ec & Erd & Ef).
    exists w'. split.
    + intros rest. cbn [map app listen_loop]. rewrite Hrun.
      destruct (websocket (self w)); [|contradiction Hws; reflexivity].
      rewrite listen_iteration_text.
      subst w1.
      destruct (handle_message (decode text) (received text w)) as [r w1'].
      cbn in Hr. subst r. apply E.
    + rewrite Es, Eo, Ec, Erd, Ef, Hs, Ho, Hc, Hrd, Hf, Rs, Ro, Rt.
      rewrite !reads_app, !close_calls_app, !sent_frames_app. cbn.
      destruct (websocket (self w)); [|contradiction Hws; reflexivity].
      unfold replies. cbn [flat_map].
      rewrite !List.app_nil_r, <- !List.app_assoc, Nat.add_0_r.
      repeat split; reflexivity.
Qed.


(** The loop in front of a read that fails. *)
Lemma listen_loop_raise (e : exn) (rest : list recv_outcome) (w : world) :
  running (self w) = true -> websocket (self w) <> None ->
  listen_loop (RecvRaise e :: rest) w =
    (Some (Raise e), snd (listen_iteration (RecvRaise e) w)).
Proof.
  intros Hrun Hws. cbn [listen_loop]. rewrite Hrun.
  destruct (websocket (self w)); [|contradiction Hws; reflexivity].
  destruct (listen_iteration_raise e w) as (Ir & _).
  cbv zeta in Ir.
  destruct (listen_iteration (RecvRaise e) w) as [r0 w0].
  cbn in Ir. subst r0. reflexivity.
Qed.


(** What one pass of the loop leaves behind, whatever was read. *)
Lemma listen_iteration_effect (outcome : recv_outcome) (w : world) :
  let w' := snd (listen_iteration outcome w) in
  self w' = self w /\
  opened w' = opened w /\
  close_calls (trace w') = close_calls (trace w).
Proof.
  destruct outcome as [text|e].
  - rewrite listen_iteration_text. cbv zeta.
    destruct (received_effect text w) as (Rs & Ro & Rt).
    destruct (handle_message_effect (decode text) (received text w))
      as (_ & Hs & Ho & _ & Hc & _).
    cbv zeta in Hs, Ho, Hc. rewrite Hs, Ho, Hc, Rs, Ro, Rt, close_calls_app.
    cbn. rewrite Nat.add_0_r. repeat split; reflexivity.
  - destruct (listen_iteration_raise e w) as (_ & Is & Io & It).
    cbv zeta in Is, Io, It |- *. rewrite Is, Io, It, close_calls_app.
    cbn. rewrite Nat.add_0_r. repeat split; reflexivity.
Qed.

Lemma listen_loop_effect (incoming : list recv_outcome) :
  forall w : world,
    let w' := snd (listen_loop incoming w) in
    self w' = self w /\
    opened w' = opened w /\
    close_calls (trace w') = close_calls (trace w).
Proof.
  induction incoming as [|outcome rest IH]; intros w; cbv zeta.
  - cbn [listen_loop].
    destruct (running (self w)), (websocket (self w));
      repeat split; reflexivity.
  - cbn [listen_loop].
    destruct (running (self w)); [|repeat split; reflexivity].
    destruct (websocket (self w)); [|repeat split; reflexivity].
    destruct (listen_iteration_effect outcome w) as (Is & Io & Ic).
    cbv zeta in Is, Io, Ic.
    destruct (listen_iteration outcome w) as [[v|e] w1]; cbn [snd] in *.
    + destruct (IH w1) as (A & B & C). cbv zeta in A, B, C.
      rewrite A, B, C. repeat split; assumption.
    + repeat split; assumption.
Qed.

Lemma listen_loop_result (incoming : list recv_outcome) :
  forall w : world,
    fst (listen_loop incoming w) = None \/
    fst (listen_loop incoming w) = Some (Ret PNone) \/
    exists e, fst (listen_loop incoming w) = Some (Raise e).
Proof.
  induction incoming as [|o l IH]; intros w.
  - cbn [listen_loop].
    destruct (running (self w)), (websocket (self w)); cbn; auto.
  - cbn [listen_loop].
    destruct (running (self w)); [|cbn; auto].
    destruct (websocket (self w)); [|cbn; auto].
    destruct (listen_iteration o w) as [[v|e] w1]; [apply IH|].
    right. right. exists e. reflexivity.
Qed.

(** X12.  Whatever arrives, [listen_for_messages] raises nothing: it is
    either still waiting for a frame or has returned [None].  It never
    changes a field of the client -- [running] stays as it was, so no
    frame and no failure makes the client stop -- and it neither closes
    the connection nor opens one. *)
Theorem listen_never_raises (incoming : list recv_outcome) (w : world) :
  let r := listen_for_messages incoming w in
  (fst r = None \/ fst r = Some (Ret PNone)) /\
  self (snd r) = self w /\
  opened (snd r) = opened w /\
  close_calls (trace (snd r)) = close_calls (trace w).
Proof.
  cbv zeta. unfold listen_for_messages.
  destruct (listen_loop_effect incoming w) as (A & B & C).
  cbv zeta in A, B, C.
  pose proof (listen_loop_result incoming w) as R.
  destruct (listen_loop incoming w) as [[[v|e]|] w1]; cbn [fst snd] in *.
  - destruct R as [R|[R|[e R]]]; try discriminate R.
    split; [right; exact R|]. repeat split; assumption.
  - split; [right; destruct e; reflexivity|].
    destruct e; cbn; rewrite ?close_calls_app; cbn;
      rewrite ?Nat.add_0_r; repeat split; assumption.
  - split; [left; reflexivity|]. repeat split; assumption.
Qed.

(** *** The callers: [send_test_messages] *)

Lemma call_send_message (message : pyval) (s : session) :
  call (send_message message) s =
    (Ret PNone,
     mkSession (snd (send_message message (client_world s))) (console s)).
Proof.
  unfold call.
  destruct (send_message_spec message (client_world s)) as (Hr & _).
  cbv zeta in Hr.
  destruct (send_message message (client_world s)) as [r w'].
  cbn in Hr. subst r. reflexivity.
Qed.

(** What one call of [send_message] leaves behind, as the observations
    see it. *)
Lemma send_message_effect (message : pyval) (w : world) :
  let w' := snd (send_message message w) in
  self w' = self w /\
  opened w' = opened w /\
  close_calls (trace w') = close_calls (trace w) /\
  reads (trace w') = reads (trace w) /\
  sent_frames (trace w') =
    sent_frames (trace w) ++
      match websocket (self w) with
      | Some _ => [message_str message]
      | None => []
      end.
Proof.
  destruct (send_message_spec message w) as (_ & Hs & _ & Ho & Ht & _).
  cbv zeta in Hs, Ho, Ht |- *.
  rewrite Hs, Ho, Ht, close_calls_app, reads_app, sent_frames_app.
  unfold send_events.
  destruct (websocket (self w)); [destruct (write_outcome w)|]; cbn;
    rewrite ?List.app_nil_r, ?Nat.add_0_r; repeat split; reflexivity.
Qed.

Lemma send_enumerated_effect (n : nat) (messages : list pyval) :
  forall (i : nat) (s : session),
    let r := send_enumerated i n messages s in
    fst r = Ret PNone /\
    self (client_world (snd r)) = self (client_world s) /\
    opened (client_world (snd r)) = opened (client_world s) /\
    close_calls (trace (client_world (snd r))) =
      close_calls (trace (client_world s)) /\
    reads (trace (client_world (snd r))) = reads (trace (client_world s)) /\
    sent_frames (trace (client_world (snd r))) =
      sent_frames (trace (client_world s)) ++
        match websocket (self (client_world s)) with
        | Some _ => map message_str messages
        | None => []
        end /\
    map snd (console (snd r)) =
      map snd (console s) ++
        flat_map (fun k => [SendingTest (S k) n; Slept 1])
                 (seq i (List.length messages)).
Proof.
  induction messages as [|message rest IH]; intros i s; cbv zeta.
  - cbn. destruct (websocket (self (client_world s)));
      rewrite !List.app_nil_r; repeat split; reflexivity.
  - cbn [send_enumerated]. rewrite call_send_message.
    destruct (send_message_effect message
                (client_world (note (SendingTest (S i) n) s)))
      as (Hs & Ho & Hc & Hr & Hf).
    cbv zeta in Hs, Ho, Hc, Hr, Hf.
    match goal with
    | |- context [send_enumerated (S i) n rest ?s0] => set (s1 := s0)
    end.
    assert (W : client_world s1 =
                snd (send_message message
                       (client_world (note (SendingTest (S i) n) s))))
      by reflexivity.
    assert (K : map snd (console s1) =
                map snd (console s) ++ [SendingTest (S i) n; Slept 1]).
    { unfold s1. cbn [note console]. rewrite !map_app, <- List.app_assoc.
      reflexivity. }
    destruct (IH (S i) s1) as (A & B & C & D & E & F & G).
    cbv zeta in A, B, C, D, E, F, G.
    rewrite A, B, C, D, E, F, G, K, W, Hs, Ho, Hc, Hr, Hf.
    cbn [note client_world map List.length seq flat_map app].
    destruct (websocket (self (client_world s)));
      rewrite <- ?List.app_assoc; cbn [app]; rewrite ?List.app_nil_r;
      repeat split; reflexivity.
Qed.

(** X13.  [send_test_messages] goes through its whole list whatever
    happens to the writes: it raises nothing and returns [None]; on a
    client that holds a connection it asks for the five frames, in the
    order of the list, a failed write stopping nothing; without a
    connection it writes nothing.  Either way it announces each message,
    sleeps one second after each, and leaves the client as it was, the
    connection neither closed nor read. *)
Theorem send_test_messages_attempts_every_message (s : session) :
  let r := send_test_messages s in
  fst r = Ret PNone /\
  self (client_world (snd r)) = self (client_world s) /\
  close_calls (trace (client_world (snd r))) =
    close_calls (trace (client_world s)) /\
  reads (trace (client_world (snd r))) = reads (trace (client_world s)) /\
  sent_frames (trace (client_world (snd r))) =
    sent_frames (trace (client_world s)) ++
      match websocket (self (client_world s)) with
      | Some _ => map json_dumps test_messages
      | None => []
      end /\
  map snd (console (snd r)) =
    map snd (console s) ++
      [SendingTest 1 5; Slept 1; SendingTest 2 5; Slept 1;
       SendingTest 3 5; Slept 1; SendingTest 4 5; Slept 1;
       SendingTest 5 5; Slept 1].
Proof.
  destruct (send_enumerated_effect (List.length test_messages) test_messages 0 s)
    as (A & B & _ & C & D & E & F).
  cbv zeta. unfold send_test_messages.
  repeat split; assumption.
Qed.

(** A value in the structured form is what its JSON text decodes to. *)
Lemma decode_dumps (v : pyval) : json_wf v = true -> decode (json_dumps v) = v.
Proof.
  intros H. unfold decode. rewrite (json_loads_dumps v H). reflexivity.
Qed.

(** X14.  Two such clients, end to end: when one sends structured
    messages (dicts without floats, of Unicode text, with distinct keys)
    and the loop of the other receives the frames, the second answers
    exactly as [handle_message] answers the messages themselves -- the
    encoding and the decoding in between change nothing.  *)
Theorem peer_answers_what_was_sent (messages : list (list (pystr * pyval))) :
  forallb json_wf (map PDict messages) = true ->
  replies (map message_str (map PDict messages)) =
    flat_map reply_frames (map PDict messages).
Proof.
  induction messages as [|d rest IH]; [reflexivity|].
  cbn [map forallb]. intros H. apply andb_true_iff in H as [Hd Hrest].
  unfold replies in *. cbn [flat_map]. rewrite (IH Hrest).
  cbn [message_str]. rewrite (decode_dumps (PDict d) Hd). reflexivity.
Qed.

(** *** The callers: [interactive_mode] *)

Section InteractiveProperties.

Variable str_lower : pystr -> pystr.

Lemma interactive_step_effect (outcome : input_outcome) (s : session) :
  let r := interactive_step str_lower outcome s in
  fst r = negb (breaks_loop str_lower outcome) /\
  self (client_world (snd r)) = self (client_world s) /\
  opened (client_world (snd r)) = opened (client_world s) /\
  close_calls (trace (client_world (snd r))) =
    close_calls (trace (client_world s)) /\
  reads (trace (client_world (snd r))) = reads (trace (client_world s)) /\
  sent_frames (trace (client_world (snd r))) =
    sent_frames (trace (client_world s)) ++
      if breaks_loop str_lower outcome then []
      else match websocket (self (client_world s)) with
           | Some _ => line_frames outcome
           | None => []
           end.
Proof.
  cbv zeta. destruct outcome as [line| |e]; cbn [interactive_step breaks_loop].
  - destruct (is_quit (str_lower line)).
    + cbn. rewrite List.app_nil_r. repeat split; reflexivity.
    + rewrite call_send_message. cbn [fst snd negb client_world note].
      destruct (send_message_effect (line_message line) (client_world s))
        as (Hs & Ho & Hc & Hr & Hf).
      cbv zeta in Hs, Ho, Hc, Hr, Hf.
      rewrite Hs, Ho, Hc, Hr, Hf. cbn [line_frames].
      repeat split; reflexivity.
  - cbn. rewrite List.app_nil_r. repeat split; reflexivity.
  - cbn. destruct (websocket (self (client_world s)));
      rewrite List.app_nil_r; repeat split; reflexivity.
Qed.

Lemma interactive_loop_effect (inputs : list input_outcome) :
  forall s : session,
    let r := interactive_loop str_lower inputs s in
    (fst r = None \/ fst r = Some (Ret PNone)) /\
    self (client_world (snd r)) = self (client_world s) /\
    opened (client_world (snd r)) = opened (client_world s) /\
    close_calls (trace (client_world (snd r))) =
      close_calls (trace (client_world s)) /\
    reads (trace (client_world (snd r))) = reads (trace (client_world s)).
Proof.
  induction inputs as [|outcome rest IH]; intros s; cbv zeta.
  - cbn [interactive_loop].
    destruct (running (self (client_world s))); cbn; auto 10.
  - cbn [interactive_loop].
    destruct (running (self (client_world s))); [|cbn; auto 10].
    destruct (interactive_step_effect outcome s) as (_ & Hs & Ho & Hc & Hr & _).
    cbv zeta in Hs, Ho, Hc, Hr.
    destruct (interactive_step str_lower outcome s) as [[|] s1];
      cbn [fst snd] in *.
    + destruct (IH s1) as (A & B & C & D & E). cbv zeta in A, B, C, D, E.
      rewrite B, C, D, E. repeat split; assumption.
    + split; [right; reflexivity|]. repeat split; assumption.
Qed.

(** X15.  [interactive_mode] raises nothing, whatever is typed and
    whatever [input] does: it is still waiting for a line or has returned
    [None].  It never changes a field of the client, never closes the
    connection or opens one, and never reads a frame. *)
Theorem interactive_mode_never_disconnects
    (inputs : list input_outcome) (s : session) :
  let r := interactive_mode str_lower inputs s in
  (fst r = None \/ fst r = Some (Ret PNone)) /\
  self (client_world (snd r)) = self (client_world s) /\
  opened (client_world (snd r)) = opened (client_world s) /\
  close_calls (trace (client_world (snd r))) =
    close_calls (trace (client_world s)) /\
  reads (trace (client_world (snd r))) = reads (trace (client_world s)).
Proof.
  exact (interactive_loop_effect inputs (note InteractiveStarted s)).
Qed.

(** The loop over inputs none of which takes it to [break], on a client
    that is running. *)
Lemma interactive_loop_goes_on (pre : list input_outcome) :
  forall s : session,
    running (self (client_world s)) = true ->
    forallb (fun o => negb (breaks_loop str_lower o)) pre = true ->
    exists s' : session,
      (forall rest,
         interactive_loop str_lower (pre ++ rest) s =
           interactive_loop str_lower rest s') /\
      self (client_world s') = self (client_world s) /\
      sent_frames (trace (client_world s')) =
        sent_frames (trace (client_world s)) ++
          match websocket (self (client_world s)) with
          | Some _ => flat_map line_frames pre
          | None => []
          end.
Proof.
  induction pre as [|outcome pre IH]; intros s Hrun Hpre.
  - exists s. split; [reflexivity|]. split; [reflexivity|].
    destruct (websocket (self (client_world s)));
      cbn; rewrite List.app_nil_r; reflexivity.
  - cbn [forallb] in Hpre. apply andb_true_iff in Hpre as [Ho Hpre].
    destruct (interactive_step_effect outcome s) as (Hb & Hs & _ & _ & _ & Hf).
    cbv zeta in Hb, Hs, Hf. rewrite Ho in Hb.
    apply negb_true_iff in Ho. rewrite Ho in Hf.
    destruct (interactive_step str_lower outcome s) as [b s1] eqn:E.
    cbn [fst snd] in Hb, Hs, Hf. subst b.
    assert (Hrun1 : running (self (client_world s1)) = true)
      by (rewrite Hs; exact Hrun).
    destruct (IH s1 Hrun1 Hpre) as (s' & EE & Es & Ef).
    exists s'. split; [|split].
    + intros rest. cbn [app interactive_loop]. rewrite Hrun, E. apply EE.
    + rewrite Es. exact Hs.
    + rewrite Ef, Hf, Hs.
      destruct (websocket (self (client_world s)));
        cbn [flat_map]; rewrite <- ?List.app_assoc, ?List.app_nil_r;
        reflexivity.
Qed.


(** X17.  An [input] that keeps failing does not end the loop.  With the
    standard input closed every call raises [EOFError], an [Exception]:
    each failure is logged and the loop asks again, so after any number
    of failures [interactive_mode] is still running, the client
    untouched. *)
Theorem failing_input_never_ends_the_loop (e : exn) (n : nat) (s : session) :
  running (self (client_world s)) = true ->
  let r := interactive_mode str_lower (repeat (InputRaise e) n) s in
  fst r = None /\
  client_world (snd r) = client_world s /\
  map snd (console (snd r)) =
    map snd (console s) ++
      InteractiveStarted ::
      flat_map (fun o => [Prompted o; InteractiveError e])
               (repeat (InputRaise e) n).
Proof.
  intros Hrun. cbv zeta. unfold interactive_mode.
  assert (G : forall s0 : session,
            running (self (client_world s0)) = true ->
            let r := interactive_loop str_lower (repeat (InputRaise e) n) s0 in
            fst r = None /\
            client_world (snd r) = client_world s0 /\
            map snd (console (snd r)) =
              map snd (console s0) ++
                flat_map (fun o => [Prompted o; InteractiveError e])
                         (repeat (InputRaise e) n)).
  { induction n as [|n IH]; intros s0 H0; cbv zeta.
    - cbn [repeat interactive_loop]. rewrite H0. cbn.
      rewrite List.app_nil_r. repeat split; reflexivity.
    - cbn [repeat interactive_loop interactive_step]. rewrite H0.
      match goal with
      | |- context [interactive_loop str_lower _ ?s1] =>
          destruct (IH s1 H0) as (A & B & C)
      end.
      cbv zeta in A, B, C. rewrite A, B, C. cbn [note client_world console].
      rewrite !map_app. cbn [map snd flat_map app].
      rewrite <- !List.app_assoc. repeat split; reflexivity. }
  destruct (G (note InteractiveStarted s) Hrun) as (A & B & C).
  cbv zeta in A, B, C. rewrite A, B, C. cbn [note client_world console].
  rewrite map_app, <- List.app_assoc. repeat split; reflexivity.
Qed.

End InteractiveProperties.


(** *** The callers: [test_connection] *)

(** X19.  [test_connection] returns [True] exactly when the handshake
    succeeds, and raises nothing.  It asks for one connection, to
    [localhost:19765].  After a success it has closed that connection
    once and left the client stopped; after a failure there is nothing
    to close and nothing is closed.  It prints the announcement first
    and the verdict last. *)
Theorem test_connection_reports_the_handshake
    (network : list (option exn)) (outcome : option exn) :
  let r := test_connection network outcome in
  let w := client_world (snd r) in
  fst r = Ret (PBool match outcome with None => true | Some _ => false end) /\
  running (self w) = false /\
  (exists logs_before logs_after,
     trace w =
       logs_before ++
       TransportOpen (py "localhost") 19765%Z outcome :: logs_after /\
     forall e, In e (logs_before ++ logs_after) ->
       match e with TransportOpen _ _ _ => False | _ => True end) /\
  close_calls (trace w) = match outcome with None => 1%nat | Some _ => 0%nat end /\
  closed (conn w) = true /\
  sent_frames (trace w) = [] /\
  map snd (console (snd r)) =
    [PrintTesting;
     match outcome with None => PrintPassed | Some _ => PrintFailed end].
Proof.
  destruct outcome as [e|]; cbv zeta; cbn.
  - repeat split; try reflexivity.
    exists [Log INFO (Connecting (py "localhost") 19765%Z)],
           [Log ERROR (FailedToConnect e)].
    split; [reflexivity|].
    intros ev [<-|[<-|[]]]; exact I.
  - repeat split; try reflexivity.
    exists [Log INFO (Connecting (py "localhost") 19765%Z)],
           [Log INFO Connected; TransportClose; Log INFO Disconnected].
    split; [reflexivity|].
    intros ev [<-|[<-|[<-|[<-|[]]]]]; exact I.
Qed.

(** *** The frames of structured messages *)

(** X20.  The frame tells the message: two structured messages
    (dicts without floats, of Unicode text, with distinct keys) that
    [send_message] writes as the same text are the same message, keys in
    the same order. *)
Theorem distinct_messages_have_distinct_frames (a b : list (pystr * pyval)) :
  json_wf (PDict a) = true ->
  json_wf (PDict b) = true ->
  message_str (PDict a) = message_str (PDict b) ->
  a = b.
Proof.
  intros Ha Hb E. cbn [message_str] in E.
  pose proof (json_loads_dumps (PDict a) Ha) as La.
  rewrite E, (json_loads_dumps (PDict b) Hb) in La.
  injection La as <-. reflexivity.
Qed.

Lemma skip_ws_blank (text : pystr) :
  forallb is_ws text = true -> skip_ws text = [].
Proof.
  induction text as [|c r IH]; [reflexivity|].
  cbn [forallb skip_ws]. intros H. apply andb_true_iff in H as [Hc Hr].
  rewrite Hc. exact (IH Hr).
Qed.

(** X21.  An empty frame, or one of spaces, tabs and line ends only, is
    not JSON: the loop hands it to [handle_message] as the text it is,
    and no reply is written for it. *)
Theorem blank_frame_is_plain_text (text : pystr) :
  forallb is_ws text = true ->
  json_loads text = None /\
  decode text = PStr text /\
  replies [text] = [].
Proof.
  intros H.
  assert (E : json_loads text = None).
  { unfold json_loads. rewrite (skip_ws_blank text H). reflexivity. }
  split; [exact E|].
  assert (D : decode text = PStr text) by (unfold decode; rewrite E; reflexivity).
  split; [exact D|].
  unfold replies. cbn [flat_map]. rewrite D. reflexivity.
Qed.

Lemma forallb_flat_map (A B : Type) (p : B -> bool) (f : A -> list B)
    (l : list A) :
  (forall x, forallb p (f x) = true) -> forallb p (flat_map f l) = true.
Proof.
  intros H. induction l as [|x l IH]; [reflexivity|].
  cbn [flat_map]. rewrite forallb_app, H, IH. reflexivity.
Qed.

Lemma hexdigit_printable (d : N) : d < 16 -> printable (hexdigit d) = true.
Proof.
  intros H. unfold hexdigit, printable.
  destruct (d <? 10) eqn:E;
    [apply N.ltb_lt in E | apply N.ltb_ge in E];
    apply andb_true_iff; split; apply N.leb_le; lia.
Qed.

Lemma hex4_printable (n : N) : forallb printable (hex4 n) = true.
Proof.
  unfold hex4. cbn [forallb].
  rewrite !hexdigit_printable; [reflexivity| | | |];
    apply N.mod_upper_bound; discriminate.
Qed.

Lemma escape_char_printable (c : N) :
  forallb printable (escape_char c) = true.
Proof.
  unfold escape_char.
  repeat match goal with
         | |- context [if ?b then _ else _] =>
             destruct b eqn:?; [first [reflexivity | idtac]|]
         end.
  all: cbn [forallb app]; rewrite ?forallb_app; cbn [forallb];
    rewrite ?hex4_printable; try reflexivity.
  match goal with
  | H : (32 <=? c) && (c <=? 126) = true |- _ =>
      unfold printable; rewrite H; reflexivity
  end.
Qed.

Lemma encode_basestring_ascii_printable (s : pystr) :
  forallb printable (encode_basestring_ascii s) = true.
Proof.
  unfold encode_basestring_ascii. cbn [forallb].
  rewrite forallb_app, (forallb_flat_map printable escape_char s escape_char_printable).
  reflexivity.
Qed.

Lemma uint_str_printable (u : Decimal.uint) :
  forallb printable (uint_str u) = true.
Proof. induction u; cbn; auto. Qed.

Lemma int_repr_printable (z : Z) : forallb printable (int_repr z) = true.
Proof.
  unfold int_repr. destruct (Z.to_int z); cbn [forallb];
    rewrite uint_str_printable; reflexivity.
Qed.

Lemma join_items_printable (items : list pystr) :
  Forall (fun x => forallb printable x = true) items ->
  forallb printable (join_items items) = true.
Proof.
  induction 1 as [|x xs Hx Hxs IH]; [reflexivity|].
  cbn [join_items]. destruct xs as [|y ys]; [exact Hx|].
  rewrite !forallb_app, Hx, IH. reflexivity.
Qed.

(** X22.  The text [send_message] writes for a dict is printable ASCII:
    every character of the frame lies between the space and the tilde,
    whatever the strings of the message hold -- line ends, control
    characters and characters beyond ASCII leave as escapes -- so the
    frame is one line.  The text of a float is Python's business, and is
    asked to be printable. *)
Theorem frames_are_printable_ascii (d : list (pystr * pyval)) :
  (forall f : float, forallb printable (floatstr f) = true) ->
  forallb printable (message_str (PDict d)) = true.
Proof.
  intros Hfloat. cbn [message_str].
  generalize (PDict d). clear d. intros v.
  induction v as [| [|] | z | f | s | l IH | d IH] using pyval_ind;
    cbn [json_dumps]; try reflexivity.
  - apply int_repr_printable.
  - apply Hfloat.
  - apply encode_basestring_ascii_printable.
  - cbn [forallb]. rewrite forallb_app, join_items_printable; [reflexivity|].
    induction IH as [|x xs Hx Hxs IHxs]; constructor; assumption.
  - cbn [forallb]. rewrite forallb_app, join_items_printable; [reflexivity|].
    induction IH as [|[k x] xs Hx Hxs IHxs]; constructor; [|assumption].
    cbn [fst snd] in *.
    rewrite !forallb_app, encode_basestring_ascii_printable, Hx. reflexivity.
Qed.

(** *** After the peer has closed *)


(** *** The ping test of the repository *)


(** X25.  The client passes the ping test of the repository when it is
    the peer: on a client that is running on a connection whose next
    write goes through, the loop that receives the frame [test_ping]
    writes puts one frame on the connection, and [test_ping] given that
    frame as its response returns [True]. *)
Theorem client_passes_test_ping (w : world) :
  running (self w) = true ->
  websocket (self w) <> None ->
  write_outcome w = None ->
  let r := listen_for_messages [RecvText (json_dumps ping_msg)] w in
  exists reply : pystr,
    delivered (conn (snd r)) = delivered (conn w) ++ [reply] /\
    sent_frames (snd (test_ping None None (RecvText reply))) =
      [json_dumps ping_msg] /\
    fst (test_ping None None (RecvText reply)) = true.
Proof.
  intros Hrun Hws Hwr. cbv zeta.
  set (d := [(py "type", PStr (py "ping"));
             (py "timestamp", PStr (py "2025-08-21T23:22:00Z"))]).
  assert (Hd : ping_msg = PDict d) by reflexivity.
  exists (json_dumps (pong_reply d)).
  assert (L : json_loads (json_dumps (pong_reply d)) = Some (pong_reply d))
    by (apply json_loads_dumps; reflexivity).
  split; [|split].
  - unfold listen_for_messages. cbn [listen_loop]. rewrite Hrun.
    destruct (websocket (self w)) as [c|] eqn:Ews;
      [|contradiction Hws; reflexivity].
    rewrite listen_iteration_text, handle_message_reply.
    rewrite (decode_dumps ping_msg eq_refl).
    change (reply_to ping_msg) with (Some (pong_reply d)).
    set (w1 := snd (logger INFO (Processing ping_msg)
                      (received (json_dumps ping_msg) w))).
    destruct (send_message_spec (pong_reply d) w1) as (A & B & _ & _ & _ & C).
    cbv zeta in A, B, C.
    assert (W : delivered (conn w1) = delivered (conn w) /\
                websocket (self w1) = Some c /\
                write_outcome w1 = None).
    { unfold w1, received. cbn. rewrite Ews. repeat split. exact Hwr. }
    destruct W as (W1 & W2 & W3).
    unfold send_delivery in C. rewrite W1, W2, W3 in C.
    destruct (send_message (pong_reply d) w1) as [res w2].
    cbn [fst snd] in A, B, C. subst res.
    destruct (running (self w2)), (websocket (self w2)); exact C.
  - unfold test_ping. cbn [snd]. rewrite !sent_frames_app. reflexivity.
  - unfold test_ping. cbn [fst]. rewrite L. reflexivity.
Qed.

End Runtime.

Arguments Ret {A} a.
Arguments Raise {A} e.
Arguments PNone {float}.
Arguments PBool {float} b.
Arguments PInt {float} z.
Arguments PStr {float} s.
Arguments PList {float} l.
Arguments PDict {float} d.
Arguments Connecting {float} host port.
Arguments Connected {float}.
Arguments FailedToConnect {float} e.
Arguments Disconnected {float}.
Arguments NotConnected {float}.
Arguments FailedToSend {float} e.
Arguments Received {float} message.
Arguments ClosedByServer {float}.
Arguments ErrorListening {float} e.
Arguments TransportOpen {float} host port outcome.
Arguments TransportSend {float} frame outcome.
Arguments TransportRecv {float} outcome.
Arguments TransportClose {float}.
Arguments connected_world {float}.
Arguments faulty_world {float} e.
Arguments new_world {float} h p network.
Arguments text_message {float} user_input.
Arguments test_messages {float}.
Arguments ping_msg {float}.

(** ** The properties at concrete inputs

    The runtime taken here keeps a float as the text of its literal and
    prints every [repr] as a fixed text; none of the inputs below holds a
    float or asks for a [repr]. *)

Local Notation "'literal_float'" := (fun lit : pystr => lit).
Local Notation "'fixed_repr'" := (fun _ : pyval pystr => py "<repr>").
Local Notation "'the_client'" := (@connected_world pystr).

(** The messages of [send_test_messages] that the dispatcher reacts to. *)
Local Notation "'ping_message'" :=
  [(py "type", @PStr pystr (py "ping"));
   (py "timestamp", PStr (py "2025-01-01T00:00:00Z"))].
Local Notation "'echo_message'" :=
  [(py "command", @PStr pystr (py "echo"));
   (py "data", PStr (py "Test echo message"))].


Lemma ping_gets_one_pong_witness :
  websocket (self the_client) <> None /\
  dict_lookup ping_message (py "type") = Some (PStr (py "ping")) /\
  sent_frames
    (trace (snd (handle_message literal_float fixed_repr (PDict ping_message)
                   the_client))) =
    [pyq "{'type': 'pong', 'timestamp': '2025-01-01T00:00:00Z'}"].
Proof.
  split; [vm_compute; discriminate|]. split; [reflexivity|].
  exact (ping_gets_one_pong literal_float fixed_repr ping_message the_client
           ltac:(vm_compute; discriminate) eq_refl).
Defined.

(** C1 as stated fails: a ping without a [timestamp] field is answered by a
    reply that has the field, holding [null]. *)
Lemma ping_without_timestamp_gets_null :
  let message := [(py "type", @PStr pystr (py "ping"))] in
  dict_lookup message (py "timestamp") = None /\
  pong_reply message =
    PDict [(py "type", PStr (py "pong")); (py "timestamp", PNone)] /\
  sent_frames
    (trace (snd (handle_message literal_float fixed_repr (PDict message)
                   the_client))) =
    [pyq "{'type': 'pong', 'timestamp': null}"] /\
  pyq "{'type': 'pong', 'timestamp': null}" <> pyq "{'type': 'pong'}".
Proof.
  repeat split; try (vm_compute; reflexivity).
  vm_compute. discriminate.
Qed.




Lemma ping_wins_over_echo_witness :
  let message := [(py "type", @PStr pystr (py "ping"));
                  (py "command", PStr (py "echo"));
                  (py "data", PStr (py "x"))] in
  websocket (self the_client) <> None /\
  dict_lookup message (py "type") = Some (PStr (py "ping")) /\
  dict_lookup message (py "command") = Some (PStr (py "echo")) /\
  sent_frames
    (trace (snd (handle_message literal_float fixed_repr (PDict message)
                   the_client))) =
    [json_dumps literal_float (pong_reply message)] /\
  json_dumps literal_float (pong_reply message) <>
    json_dumps literal_float (echo_reply fixed_repr message).
Proof.
  intros message.
  split; [vm_compute; discriminate|]. do 2 (split; [reflexivity|]).
  exact (ping_wins_over_echo literal_float fixed_repr message the_client
           ltac:(vm_compute; discriminate) eq_refl eq_refl).
Defined.

(** C3 as stated fails: after the peer closes, the loop has ended but
    [running] is still set and [close] was never called, where [disconnect]
    clears the one and calls the other. *)
Lemma peer_close_skips_cleanup :
  let r := listen_for_messages literal_float literal_float fixed_repr
             [RecvRaise ConnectionClosed] the_client in
  fst r = Some (Ret PNone) /\
  running (self (snd r)) = true /\
  close_calls (trace (snd r)) = 0%nat /\
  running (self (snd (disconnect the_client))) = false /\
  close_calls (trace (snd (disconnect the_client))) = 1%nat /\
  self (snd r) <> self (snd (disconnect the_client)).
Proof.
  repeat split; try (vm_compute; reflexivity).
  vm_compute. discriminate.
Qed.

Lemma peer_close_ends_loop_without_cleanup_witness :
  let r := listen_for_messages literal_float literal_float fixed_repr
             [RecvRaise ConnectionClosed; RecvText (py "late")] the_client in
  running (self the_client) = true /\
  websocket (self the_client) <> None /\
  fst r = Some (Ret PNone) /\
  running (self (snd r)) = true /\
  log_records (trace (snd r)) =
    log_records (trace the_client) ++ [(INFO, ClosedByServer)].
Proof.
  intros r.
  split; [reflexivity|]. split; [vm_compute; discriminate|].
  destruct (peer_close_ends_loop_without_cleanup literal_float literal_float
              fixed_repr [RecvText (py "late")] the_client
              eq_refl ltac:(vm_compute; discriminate))
    as (H1 & _ & H3 & H4 & _).
  fold r in H1, H3, H4.
  split; [exact H1|]. split; [exact H3|].
  rewrite H4, log_records_app. reflexivity.
Defined.



(** Why the strings of a structured message are asked to be Unicode text:
    Python lets a [str] hold surrogate code points, and a high surrogate
    followed by a low one is written as two escapes that [json.loads]
    reads back as one character. *)
Remark surrogate_pair_is_joined :
  json_loads literal_float
    (json_dumps literal_float (PStr [0xd83d; 0xde00]%N)) =
  Some (PStr [0x1f600]%N).
Proof. vm_compute. reflexivity. Qed.

(** ** More of the client, at concrete inputs *)

(** [str.lower] on ASCII text, which is all the inputs below hold. *)
Local Notation "'ascii_lower'" :=
  (map (fun c : N => if (65 <=? c)%N && (c <=? 90)%N then (c + 32)%N else c)).

(** The other messages of [send_test_messages]. *)
Local Notation "'greeting_message'" :=
  [(py "type", @PStr pystr (py "greeting"));
   (py "message", PStr (py "Hello from Python client!"))].
Local Notation "'status_message'" :=
  [(py "command", @PStr pystr (py "status"));
   (py "request_id", PStr (py "test_001"))].
Local Notation "'json_test_message'" :=
  [(py "type", @PStr pystr (py "json_test"));
   (py "data", PDict [(py "nested", PBool true); (py "value", PInt 42)])].

Local Notation "'ping_frame'" :=
  (pyq "{'type': 'ping', 'timestamp': '2025-01-01T00:00:00Z'}").
Local Notation "'pong_frame'" :=
  (pyq "{'type': 'pong', 'timestamp': '2025-01-01T00:00:00Z'}").
Local Notation "'echo_frame'" :=
  (pyq "{'command': 'echo', 'data': 'Test echo message'}").
Local Notation "'echo_response_frame'" :=
  (pyq "{'type': 'echo_response', 'original': 'Test echo message', 'response': 'Echo: Test echo message'}").




Lemma other_messages_get_no_reply_witness :
  let message := @PDict pystr greeting_message in
  dict_lookup greeting_message (py "type") = Some (PStr (py "greeting")) /\
  dict_lookup greeting_message (py "command") = None /\
  fst (handle_message literal_float fixed_repr message the_client) = Ret PNone /\
  sent_frames
    (trace (snd (handle_message literal_float fixed_repr message the_client))) =
    [] /\
  log_records
    (trace (snd (handle_message literal_float fixed_repr message the_client))) =
    log_records (trace the_client) ++ [(INFO, Processing message)].
Proof.
  intros message.
  split; [reflexivity|]. split; [reflexivity|].
  rewrite (other_messages_get_no_reply literal_float fixed_repr
             (message := message) the_client).
  - cbn [fst snd trace]. rewrite sent_frames_app, log_records_app.
    repeat split; reflexivity.
  - intros d E. injection E as <-. split; vm_compute; discriminate.
Defined.



Lemma peer_answers_what_was_sent_witness :
  let messages := [greeting_message; echo_message; ping_message;
                   status_message; json_test_message] in
  map PDict messages = test_messages /\
  forallb (@json_wf pystr) (map PDict messages) = true /\
  replies literal_float literal_float fixed_repr
    (map (message_str literal_float fixed_repr) test_messages) =
    [echo_response_frame; pong_frame].
Proof.
  intros messages.
  split; [reflexivity|]. split; [reflexivity|].
  change (@test_messages pystr) with (map (@PDict pystr) messages).
  rewrite (peer_answers_what_was_sent literal_float literal_float fixed_repr
             messages eq_refl).
  vm_compute. reflexivity.
Defined.


Lemma failing_input_never_ends_the_loop_witness :
  let s := mkSession the_client [] in
  let r := interactive_mode literal_float literal_float fixed_repr ascii_lower
             (repeat (InputRaise (OtherException 0)) 3) s in
  running (self (client_world s)) = true /\
  fst r = None /\
  client_world (snd r) = the_client /\
  List.length (console (snd r)) = 7%nat.
Proof.
  intros s r.
  split; [reflexivity|].
  destruct (failing_input_never_ends_the_loop literal_float literal_float
              fixed_repr ascii_lower (OtherException 0) 3 s eq_refl)
    as (A & B & C).
  fold r in A, B, C.
  split; [exact A|]. split; [exact B|].
  rewrite <- (length_map snd), C. reflexivity.
Defined.


Lemma distinct_messages_have_distinct_frames_witness :
  let a := ping_message in
  let b := [(py "type", @PStr pystr (py "ping"));
            (py "timestamp", PStr (py "2025-01-01T" ++ py "00:00:00Z"))] in
  json_wf (PDict a) = true /\
  json_wf (PDict b) = true /\
  message_str literal_float fixed_repr (PDict a) =
    message_str literal_float fixed_repr (PDict b) /\
  a = b.
Proof.
  intros a b.
  split; [reflexivity|]. split; [reflexivity|]. split; [reflexivity|].
  exact (distinct_messages_have_distinct_frames literal_float
           (floatstr := literal_float) (py_repr := fixed_repr)
           (a := a) (b := b) eq_refl eq_refl eq_refl).
Defined.

Lemma blank_frame_is_plain_text_witness :
  let text := [32; 9; 13; 10]%N in
  forallb is_ws text = true /\
  json_loads literal_float text = None /\
  decode literal_float text = PStr text /\
  replies literal_float literal_float fixed_repr [text] = [].
Proof.
  intros text. split; [reflexivity|].
  exact (blank_frame_is_plain_text literal_float literal_float fixed_repr
           text eq_refl).
Defined.

Lemma frames_are_printable_ascii_witness :
  let floatstr := fun _ : pystr => py "0.5" in
  let d := [(py "text", @PStr pystr [233; 10; 0x1f600]%N);
            (py "ratio", PFloat (py "0.5"))] in
  (forall f : pystr, forallb printable (floatstr f) = true) /\
  message_str floatstr fixed_repr (PDict d) =
    pyq "{'text': '\u00e9\n\ud83d\ude00', 'ratio': 0.5}" /\
  forallb printable (message_str floatstr fixed_repr (PDict d)) = true.
Proof.
  intros floatstr d.
  split; [intros f; reflexivity|]. split; [vm_compute; reflexivity|].
  exact (frames_are_printable_ascii floatstr fixed_repr d
           (fun f => eq_refl)).
Defined.


Lemma client_passes_test_ping_witness :
  let r := listen_for_messages literal_float literal_float fixed_repr
             [RecvText (json_dumps literal_float ping_msg)] the_client in
  let reply := pyq "{'type': 'pong', 'timestamp': '2025-08-21T23:22:00Z'}" in
  running (self the_client) = true /\
  websocket (self the_client) <> None /\
  write_outcome the_client = None /\
  delivered (conn (snd r)) = [reply] /\
  fst (test_ping literal_float literal_float None None (RecvText reply)) = true.
Proof.
  intros r reply.
  split; [reflexivity|]. split; [vm_compute; discriminate|].
  split; [reflexivity|].
  destruct (client_passes_test_ping literal_float literal_float fixed_repr
              the_client eq_refl ltac:(vm_compute; discriminate) eq_refl)
    as (reply' & A & _ & B).
  fold r in A.
  assert (E : reply' = reply).
  { vm_compute in A. injection A as <-. vm_compute. reflexivity. }
  rewrite E in A, B. split; [exact A | exact B].
Defined.
